(** * Playlist collector: a shallow embedding of [src/collector.py]

    The development follows the class [SpotifyDataCollector]: the pagination
    walker [get_playlist_tracks], the lyrics fetcher [get_lyrics], the track
    enricher [get_track_data] and the orchestrator [collect_playlist_data].

    Python values are the values a decoded JSON document can hold.  Effects
    (provider calls, printing, sleeping, the file system) are threaded
    through an explicit [world]; exceptions are a constructor of the
    outcome type. *)

From Stdlib Require Import String Ascii List Bool Arith ZArith QArith Lia.
Import ListNotations.

Close Scope Q_scope.
Local Open Scope string_scope.
Local Open Scope list_scope.

Set Warnings "-register-all".

(** ** Python values *)

Module Py.

(** What [json.loads] can produce.  A dict keeps its keys in insertion
    order, which is what [pandas] later uses for the column order. *)
Inductive value : Type :=
| PNone
| PBool (b : bool)
| PInt (z : Z)
| PFloat (q : Q)
| PStr (s : string)
| PList (l : list value)
| PDict (d : list (string * value)).

(** The subclasses of [Exception] the collector can meet. *)
Inductive exn : Type :=
| AttributeError
| TypeError
| KeyError
| FileNotFoundError
| FileExistsError
| NotADirectoryError
| IsADirectoryError
| ProviderError (msg : string).

(** Outcome of a pure Python expression. *)
Inductive exc (A : Type) : Type :=
| Val (a : A)
| Exn (e : exn).
Arguments Val {A} a.
Arguments Exn {A} e.

Definition exc_bind {A B} (c : exc A) (k : A -> exc B) : exc B :=
  match c with
  | Val a => k a
  | Exn e => Exn e
  end.

(** [bool(v)] *)
Definition truthy (v : value) : bool :=
  match v with
  | PNone => false
  | PBool b => b
  | PInt z => negb (Z.eqb z 0)
  | PFloat q => negb (Qeq_bool q 0%Q)
  | PStr s => negb (String.eqb s "")
  | PList l => match l with [] => false | _ => true end
  | PDict d => match d with [] => false | _ => true end
  end.

(** [isinstance(v, dict)] *)
Definition is_dict (v : value) : bool :=
  match v with PDict _ => true | _ => false end.

(** [v != s] for a string literal [s] *)
Definition ne_str (v : value) (s : string) : bool :=
  match v with
  | PStr t => negb (String.eqb t s)
  | _ => true
  end.

(** Dict lookup on the association list. *)
Fixpoint lookup (k : string) (d : list (string * value)) : option value :=
  match d with
  | [] => None
  | (k', v) :: d' => if String.eqb k k' then Some v else lookup k d'
  end.

(** [k in d] *)
Definition has_key (k : string) (d : list (string * value)) : bool :=
  match lookup k d with Some _ => true | None => false end.

(** [d.get(k, dflt)] on a dict *)
Definition dict_get (d : list (string * value)) (k : string) (dflt : value) : value :=
  match lookup k d with Some v => v | None => dflt end.

(** [d[k] = v]: overwrite in place, or append a new key at the end. *)
Fixpoint dict_set (d : list (string * value)) (k : string) (v : value)
  : list (string * value) :=
  match d with
  | [] => [(k, v)]
  | (k', v') :: d' =>
      if String.eqb k k' then (k', v) :: d' else (k', v') :: dict_set d' k v
  end.

(** [v.get(k, dflt)] on any value: only a dict has the method. *)
Definition get (v : value) (k : string) (dflt : value) : exc value :=
  match v with
  | PDict d => Val (dict_get d k dflt)
  | _ => Exn AttributeError
  end.

(** The one-character strings a [str] iterates over. *)
Fixpoint chars (s : string) : list value :=
  match s with
  | EmptyString => []
  | String c r => PStr (String c EmptyString) :: chars r
  end.

(** [iter(v)]: lists give their elements, strings their characters, dicts
    their keys; anything else is not iterable. *)
Definition iter (v : value) : exc (list value) :=
  match v with
  | PList l => Val l
  | PStr s => Val (chars s)
  | PDict d => Val (map (fun kv => PStr (fst kv)) d)
  | _ => Exn TypeError
  end.

(** The strings of a list of values, or [TypeError] at the first element
    that is not a [str] (what [str.join] checks). *)
Fixpoint strings_of (l : list value) : exc (list string) :=
  match l with
  | [] => Val []
  | PStr s :: r => exc_bind (strings_of r) (fun ss => Val (s :: ss))
  | _ :: _ => Exn TypeError
  end.

(** [sep.join(l)] *)
Definition join (sep : string) (l : list value) : exc string :=
  exc_bind (strings_of l) (fun ss => Val (String.concat sep ss)).

End Py.

Import Py.

(** ** The environment: file system and providers *)

(** [posixpath] and the part of [os] the collector uses.  Paths are
    resolved by their components; the working directory and the root always
    exist.  Symbolic links, permissions and [..] are not interpreted. *)
Module Posix.

Definition is_sep (c : ascii) : bool := Ascii.eqb c "/"%char.

Fixpoint has_sep (s : string) : bool :=
  match s with
  | EmptyString => false
  | String c r => is_sep c || has_sep r
  end.

Fixpoint all_sep (s : string) : bool :=
  match s with
  | EmptyString => true
  | String c r => is_sep c && all_sep r
  end.

(** [p[:p.rfind('/') + 1]] *)
Fixpoint upto_last_sep (p : string) : string :=
  match p with
  | EmptyString => EmptyString
  | String c r =>
      if has_sep r then String c (upto_last_sep r)
      else if is_sep c then String c EmptyString
      else EmptyString
  end.

(** [s.rstrip('/')] *)
Fixpoint rstrip_sep (s : string) : string :=
  match s with
  | EmptyString => EmptyString
  | String c r =>
      match rstrip_sep r with
      | EmptyString => if is_sep c then EmptyString else String c EmptyString
      | r' => String c r'
      end
  end.

(** [os.path.dirname(p)] *)
Definition dirname (p : string) : string :=
  let head := upto_last_sep p in
  if negb (String.eqb head "") && negb (all_sep head)
  then rstrip_sep head
  else head.

(** The pieces of [p] between separators, the piece being read in [cur]. *)
Fixpoint pieces (p : string) (cur : string) : list string :=
  match p with
  | EmptyString => [cur]
  | String c r =>
      if is_sep c then cur :: pieces r EmptyString
      else pieces r (cur ++ String c EmptyString)
  end.

Definition components (p : string) : list string :=
  filter (fun c => negb (String.eqb c "") && negb (String.eqb c "."))
         (pieces p EmptyString).

Definition is_abs (p : string) : bool :=
  match p with
  | String c _ => is_sep c
  | EmptyString => false
  end.

Fixpoint ends_with_sep (p : string) : bool :=
  match p with
  | EmptyString => false
  | String c EmptyString => is_sep c
  | String _ r => ends_with_sep r
  end.

(** A resolved path: absolute or relative to the working directory, and
    its components. *)
Definition location : Type := bool * list string.

Definition locate (p : string) : location := (is_abs p, components p).

Fixpoint names_eqb (a b : list string) : bool :=
  match a, b with
  | [], [] => true
  | x :: a', y :: b' => String.eqb x y && names_eqb a' b'
  | _, _ => false
  end.

Definition loc_eqb (a b : location) : bool :=
  Bool.eqb (fst a) (fst b) && names_eqb (snd a) (snd b).

(** The non-empty prefixes of a component list, shortest first. *)
Fixpoint prefixes (l : list string) : list (list string) :=
  match l with
  | [] => []
  | x :: r => [x] :: map (cons x) (prefixes r)
  end.

End Posix.

(** [pandas.DataFrame] built from a list of dicts: one row per dict, one
    column per key met, in order of first appearance. *)
Record dataframe : Type := mk_dataframe {
  df_columns : list string;
  df_rows : list value
}.

Definition add_column (cols : list string) (k : string) : list string :=
  if existsb (String.eqb k) cols then cols else cols ++ [k].

Definition row_keys (row : value) : list string :=
  match row with
  | PDict d => map fst d
  | _ => []
  end.

Definition DataFrame (data : list value) : dataframe :=
  {| df_columns := fold_left (fun cols row => fold_left add_column (row_keys row) cols)
                             data [];
     df_rows := data |}.

(** [df.shape[0]] *)
Definition row_count (df : dataframe) : nat := length (df_rows df).

Record filesystem : Type := mk_filesystem {
  fs_dirs : list Posix.location;
  fs_files : list (Posix.location * dataframe)
}.

Definition is_dir (fs : filesystem) (loc : Posix.location) : bool :=
  match snd loc with
  | [] => true
  | _ => existsb (Posix.loc_eqb loc) (fs_dirs fs)
  end.

Definition is_file (fs : filesystem) (loc : Posix.location) : bool :=
  existsb (fun f => Posix.loc_eqb loc (fst f)) (fs_files fs).

Definition read_file (fs : filesystem) (loc : Posix.location) : option dataframe :=
  option_map snd (find (fun f => Posix.loc_eqb loc (fst f)) (fs_files fs)).

(** [os.makedirs(name, exist_ok=True)]: the empty name cannot be created
    ([mkdir('')] fails and [''] is no directory); a regular file on the way
    is an error; otherwise every missing directory of the chain is made. *)
Definition makedirs_exist_ok (fs : filesystem) (name : string) : exc filesystem :=
  if String.eqb name "" then Exn FileNotFoundError
  else
    let abs := Posix.is_abs name in
    let chain := map (pair abs) (Posix.prefixes (Posix.components name)) in
    if existsb (is_file fs) (removelast chain) then Exn NotADirectoryError
    else if existsb (is_file fs) chain then Exn FileExistsError
    else Val {| fs_dirs := fs_dirs fs ++ filter (fun l => negb (is_dir fs l)) chain;
                fs_files := fs_files fs |}.

(** [df.to_csv(path, index=False)], that is [open(path, 'w')] and a write:
    the parent directory must exist and [path] must not name a directory. *)
Definition write_csv (fs : filesystem) (path : string) (df : dataframe) : exc filesystem :=
  if String.eqb path "" then Exn FileNotFoundError
  else
    let abs := Posix.is_abs path in
    let comps := Posix.components path in
    let loc := (abs, comps) in
    if is_dir fs loc || Posix.ends_with_sep path then Exn IsADirectoryError
    else if existsb (is_file fs) (map (pair abs) (Posix.prefixes (removelast comps)))
    then Exn NotADirectoryError
    else if negb (is_dir fs (abs, removelast comps)) then Exn FileNotFoundError
    else Val {| fs_dirs := fs_dirs fs;
                fs_files := (loc, df)
                            :: filter (fun f => negb (Posix.loc_eqb loc (fst f)))
                                      (fs_files fs) |}.

(** One page of the playlist listing: [results['items']] and
    [results['next']].  Every provider response is a freshly decoded object,
    so extending the first page's item list never changes a later page. *)
Record page : Type := mk_page {
  items : list value;
  next : value
}.

(** What [genius.search_song] hands back on a hit; the object is always
    truthy. *)
Record song : Type := mk_song {
  lyrics : value
}.

(** The lines the collector prints. *)
Inductive log_line : Type :=
| LogCollecting (playlist_id : string)
| LogFound (n : nat)
| LogProcessed (i : nat)
| LogSaved (output_file : string)
| LogLyricsError (track_name artist_name : value) (e : exn)
| LogTrackError (e : exn).

(** What the collector does to the outside, in the order it does it. *)
Inductive event : Type :=
| EvPlaylistTracks (playlist_id : string)
| EvNext (results : page)
| EvSearchSong (track_name artist_name : value)
| EvPrint (l : log_line)
| EvSleep (secs : Z)
| EvMakedirs (name : string)
| EvToCsv (path : string) (df : dataframe).

Record world : Type := mk_world {
  history : list event;
  disk : filesystem
}.

(** The two web clients, [self.sp] and [self.genius].  A reply may depend
    on everything that happened before the call. *)
Record providers : Type := mk_providers {
  sp_playlist_tracks : list event -> string -> exc page;
  sp_next : list event -> page -> exc page;
  genius_search_song : list event -> value -> value -> exc (option song)
}.

(** ** Computations with effects *)

Inductive outcome (A : Type) : Type :=
| Ok (a : A)
| Raise (e : exn)
| OutOfFuel.
Arguments Ok {A} a.
Arguments Raise {A} e.
Arguments OutOfFuel {A}.

Definition M (A : Type) : Type := world -> outcome A * world.

Definition ret {A} (a : A) : M A := fun w => (Ok a, w).

Definition bind {A B} (c : M A) (k : A -> M B) : M B :=
  fun w =>
    match c w with
    | (Ok a, w') => k a w'
    | (Raise e, w') => (Raise e, w')
    | (OutOfFuel, w') => (OutOfFuel, w')
    end.

Definition lift {A} (c : exc A) : M A :=
  fun w =>
    match c with
    | Val a => (Ok a, w)
    | Exn e => (Raise e, w)
    end.

(** [try: c  except Exception as e: handler e] *)
Definition try_except {A} (c : M A) (handler : exn -> M A) : M A :=
  fun w =>
    match c w with
    | (Raise e, w') => handler e w'
    | r => r
    end.

Definition record_event (ev : event) (w : world) : world :=
  {| history := history w ++ [ev]; disk := disk w |}.

Definition emit (ev : event) : M unit := fun w => (Ok tt, record_event ev w).

Definition print (l : log_line) : M unit := emit (EvPrint l).

Definition sleep (secs : Z) : M unit := emit (EvSleep secs).

(** A provider call: the request is recorded, the reply computed from the
    history before it. *)
Definition call {A} (ev : event) (reply : list event -> exc A) : M A :=
  fun w => lift (reply (history w)) (record_event ev w).

(** A file-system call: recorded, then run on the disk. *)
Definition syscall (ev : event) (op : filesystem -> exc filesystem) : M unit :=
  fun w =>
    let w' := record_event ev w in
    match op (disk w) with
    | Val d => (Ok tt, {| history := history w'; disk := d |})
    | Exn e => (Raise e, w')
    end.

Definition os_makedirs (name : string) : M unit :=
  syscall (EvMakedirs name) (fun fs => makedirs_exist_ok fs name).

Definition to_csv (df : dataframe) (path : string) : M unit :=
  syscall (EvToCsv path df) (fun fs => write_csv fs path df).

Declare Scope exc_scope.
Delimit Scope exc_scope with exc.
Notation "x <- c ;; k" := (exc_bind c (fun x => k))
  (at level 61, c at next level, right associativity) : exc_scope.

Declare Scope io_scope.
Delimit Scope io_scope with io.
Notation "x <- c ;; k" := (bind c (fun x => k))
  (at level 61, c at next level, right associativity) : io_scope.
Notation "c ;; k" := (bind c (fun _ => k))
  (at level 61, right associativity) : io_scope.

(** ** The collector *)

Module SpotifyDataCollector.

(** *** Pure field extraction (the body of [get_track_data] up to the
    record literal) *)

(** [[f(x) for x in l]] where [f] may raise *)
Fixpoint comprehension {A} (f : value -> exc A) (l : list value) : exc (list A) :=
  match l with
  | [] => Val []
  | x :: r =>
      (y <- f x ;;
       ys <- comprehension f r ;;
       Val (y :: ys))%exc
  end.

(** [isinstance(artist, dict) and 'id' in artist] *)
Definition is_dict_with_id (artist : value) : bool :=
  match artist with
  | PDict d => has_key "id" d
  | _ => false
  end.

(** [', '.join([artist.get('name', 'Unknown Artist') for artist in artists
                if isinstance(artist, dict)])] *)
Definition join_artist_names (artists : value) : exc string :=
  (l <- iter artists ;;
   names <- comprehension (fun artist => get artist "name" (PStr "Unknown Artist"))
                          (filter is_dict l) ;;
   join ", " names)%exc.

(** [', '.join([artist.get('id', 'Unknown ID') for artist in artists
                if isinstance(artist, dict) and 'id' in artist])] *)
Definition join_artist_ids (artists : value) : exc string :=
  (l <- iter artists ;;
   ids <- comprehension (fun artist => get artist "id" (PStr "Unknown ID"))
                        (filter is_dict_with_id l) ;;
   join ", " ids)%exc.

(** [album.get(k, dflt) if album else dflt] *)
Definition album_field (album : value) (k : string) (dflt : value) : exc value :=
  if truthy album then get album k dflt else Val dflt.

(** What the extraction leaves for the lyrics step. *)
Record extracted : Type := mk_extracted {
  ex_artist_names : string;
  ex_track_name : value;
  ex_track_data : list (string * value)
}.

(** Lines 87 to 109: [None] when the track has no id. *)
Definition track_fields (track : value) : exc (option extracted) :=
  (track_id <- get track "id" PNone ;;
   if negb (truthy track_id) then Val None
   else
     artists <- get track "artists" (PList []) ;;
     artist_names <- join_artist_names artists ;;
     artist_ids <- join_artist_ids artists ;;
     track_name <- get track "name" (PStr "Unknown Track") ;;
     album <- get track "album" (PDict []) ;;
     popularity <- get track "popularity" (PInt 0) ;;
     explicit <- get track "explicit" (PBool false) ;;
     duration_ms <- get track "duration_ms" (PInt 0) ;;
     album_name <- album_field album "name" (PStr "Unknown Album") ;;
     album_release_date <- album_field album "release_date" (PStr "Unknown Date") ;;
     Val (Some {| ex_artist_names := artist_names;
                  ex_track_name := track_name;
                  ex_track_data :=
                    [("id", track_id);
                     ("name", track_name);
                     ("popularity", popularity);
                     ("explicit", explicit);
                     ("duration_ms", duration_ms);
                     ("album_name", album_name);
                     ("album_release_date", album_release_date);
                     ("artist_names", PStr artist_names);
                     ("artist_ids", PStr artist_ids)] |}))%exc.

Section Collector.

Variable P : providers.

Local Open Scope io_scope.

(** The [while results['next']] loop; [fuel] bounds the number of pages
    followed. *)
Fixpoint follow_next (fuel : nat) (results : page) (tracks : list value)
  : M (list value) :=
  if truthy (next results) then
    match fuel with
    | O => fun w => (OutOfFuel, w)
    | S fuel' =>
        results' <- call (EvNext results) (fun h => sp_next P h results) ;;
        follow_next fuel' results' (tracks ++ items results')
    end
  else ret tracks.

Definition get_playlist_tracks (fuel : nat) (playlist_id : string) : M (list value) :=
  results <- call (EvPlaylistTracks playlist_id)
                  (fun h => sp_playlist_tracks P h playlist_id) ;;
  follow_next fuel results (items results).

Definition get_lyrics (artist_name track_name : value) : M value :=
  try_except
    (found <- call (EvSearchSong track_name artist_name)
                   (fun h => genius_search_song P h track_name artist_name) ;;
     match found with
     | Some s => ret (lyrics s)
     | None => ret PNone
     end)
    (fun e =>
       print (LogLyricsError track_name artist_name e) ;;
       ret PNone).

(** Lines 111 to 118. *)
Definition add_lyrics (x : extracted) : M value :=
  if truthy (PStr (ex_artist_names x)) && ne_str (ex_track_name x) "Unknown Track"
  then
    found <- get_lyrics (PStr (ex_artist_names x)) (ex_track_name x) ;;
    ret (PDict (dict_set (ex_track_data x) "lyrics" found))
  else ret (PDict (dict_set (ex_track_data x) "lyrics" PNone)).

(** The [try] block of [get_track_data]. *)
Definition extract (track : value) : M value :=
  r <- lift (track_fields track) ;;
  match r with
  | None => ret PNone
  | Some x => add_lyrics x
  end.

Definition get_track_data (track_item : value) : M value :=
  track <- lift (get track_item "track" PNone) ;;
  if negb (truthy track) then ret PNone
  else
    try_except (extract track)
               (fun e => print (LogTrackError e) ;; ret PNone).

(** [if i % 20 == 0 and i > 0: print(...); time.sleep(2)] *)
Definition throttle (i : nat) : M unit :=
  if Nat.eqb (i mod 20) 0 && Nat.ltb 0 i then
    print (LogProcessed i) ;;
    sleep 2%Z
  else ret tt.

(** [for i, track_item in enumerate(tracks)], from index [i] on. *)
Fixpoint enrich_from (i : nat) (tracks : list value) (all_track_data : list value)
  : M (list value) :=
  match tracks with
  | [] => ret all_track_data
  | track_item :: rest =>
      track_data <- get_track_data track_item ;;
      let all_track_data' :=
        if truthy track_data then all_track_data ++ [track_data]
        else all_track_data in
      throttle i ;;
      enrich_from (S i) rest all_track_data'
  end.

Definition collect_playlist_data (fuel : nat) (playlist_id output_file : string)
  : M dataframe :=
  print (LogCollecting playlist_id) ;;
  tracks <- get_playlist_tracks fuel playlist_id ;;
  print (LogFound (length tracks)) ;;
  all_track_data <- enrich_from 0 tracks [] ;;
  let df := DataFrame all_track_data in
  os_makedirs (Posix.dirname output_file) ;;
  to_csv df output_file ;;
  print (LogSaved output_file) ;;
  ret df.

End Collector.

End SpotifyDataCollector.

Import SpotifyDataCollector.

(** * Observations on a run *)

(** The lyrics searches made, in order: title, then artist hint. *)
Definition searches (h : list event) : list (value * value) :=
  flat_map (fun ev => match ev with
                      | EvSearchSong t a => [(t, a)]
                      | _ => []
                      end) h.

(** The pauses taken, by length in seconds. *)
Definition sleeps (h : list event) : list Z :=
  flat_map (fun ev => match ev with
                      | EvSleep s => [s]
                      | _ => []
                      end) h.

(** The indices announced by a progress line. *)
Definition progress_marks (h : list event) : list nat :=
  flat_map (fun ev => match ev with
                      | EvPrint (LogProcessed i) => [i]
                      | _ => []
                      end) h.

(** The events the enricher can cause: a search, and its two error lines. *)
Definition enricher_event (ev : event) : bool :=
  match ev with
  | EvSearchSong _ _ => true
  | EvPrint (LogLyricsError _ _ _) => true
  | EvPrint (LogTrackError _) => true
  | _ => false
  end.

(** Anything but a pause or its progress line. *)
Definition silent (ev : event) : bool :=
  match ev with
  | EvSleep _ => false
  | EvPrint (LogProcessed _) => false
  | _ => true
  end.

(** The history of [w'] is that of [w] followed by events satisfying [q]. *)
Definition extends (q : event -> bool) (w w' : world) : Prop :=
  exists evs, history w' = history w ++ evs /\ forallb q evs = true.

(** The same, the disk untouched. *)
Definition grows (q : event -> bool) (w w' : world) : Prop :=
  disk w' = disk w /\ extends q w w'.

(** The test of line 112. *)
Definition wants_lyrics (x : extracted) : bool :=
  truthy (PStr (ex_artist_names x)) && ne_str (ex_track_name x) "Unknown Track".

(** The entry wraps no track payload. *)
Definition lacks_track (d : list (string * value)) : bool :=
  negb (truthy (dict_get d "track" PNone)).

(** The entry wraps a track without a usable id. *)
Definition lacks_id (d : list (string * value)) : bool :=
  match dict_get d "track" PNone with
  | PDict t => negb (truthy (dict_get t "id" PNone))
  | _ => false
  end.

(** The entry is a dict whose track carries a usable id. *)
Definition has_valid_id (track_item : value) : bool :=
  match track_item with
  | PDict d =>
      match dict_get d "track" PNone with
      | PDict t => truthy (PDict t) && truthy (dict_get t "id" PNone)
      | _ => false
      end
  | _ => false
  end.

(** The entry is a dict from which every field can be extracted. *)
Definition builds_record (track_item : value) : bool :=
  match track_item with
  | PDict d =>
      truthy (dict_get d "track" PNone) &&
      match track_fields (dict_get d "track" PNone) with
      | Val (Some _) => true
      | _ => false
      end
  | _ => false
  end.

(** The test of line 137. *)
Definition cadence (i : nat) : bool := Nat.eqb (i mod 20) 0 && Nat.ltb 0 i.

(** The world after the throttle step of index [i]. *)
Definition after_throttle (i : nat) (w : world) : world :=
  if cadence i
  then record_event (EvSleep 2) (record_event (EvPrint (LogProcessed i)) w)
  else w.

(** The indices of [seq i n] at which the loop pauses. *)
Definition pauses (i n : nat) : list nat := filter cadence (seq i n).

(** From history [h] on, the provider answers the page [p] with the pages
    [rest], one per request, the last of them without a next pointer. *)
Inductive serves (P : providers) : list event -> page -> list page -> Prop :=
| serves_last h p :
    truthy (next p) = false ->
    serves P h p []
| serves_more h p q rest :
    truthy (next p) = true ->
    sp_next P h p = Val q ->
    serves P (h ++ [EvNext p]) q rest ->
    serves P h p (q :: rest).

(** The requests that walking from [p] through [rest] makes. *)
Fixpoint followed (p : page) (rest : list page) : list event :=
  match rest with
  | [] => []
  | q :: rest' => EvNext p :: followed q rest'
  end.

(** The world in which the walker starts, and the one in which the loop
    starts. *)
Definition announced (playlist_id : string) (w : world) : world :=
  record_event (EvPrint (LogCollecting playlist_id)) w.

Definition counted (tracks : list value) (w : world) : world :=
  record_event (EvPrint (LogFound (length tracks))) w.

(** Lines 141 to 149 of [collect_playlist_data], on the rows gathered. *)
Definition save (rows : list value) (output_file : string) : M dataframe :=
  (os_makedirs (Posix.dirname output_file) ;;
   to_csv (DataFrame rows) output_file ;;
   print (LogSaved output_file) ;;
   ret (DataFrame rows))%io.

(** The name an artist entry contributes to the joined string. *)
Definition artist_name_text (artist : value) : string :=
  match artist with
  | PDict a =>
      match dict_get a "name" (PStr "Unknown Artist") with
      | PStr s => s
      | _ => ""
      end
  | _ => ""
  end.

Definition is_str (v : value) : bool :=
  match v with PStr _ => true | _ => false end.

(** An artist entry both joins accept: not a dict, or a dict whose name and
    id, where present, are strings. *)
Definition joinable_artist (artist : value) : bool :=
  match artist with
  | PDict a =>
      is_str (dict_get a "name" (PStr "Unknown Artist")) &&
      is_str (dict_get a "id" (PStr "Unknown ID"))
  | _ => true
  end.

(** An album value [album_field] accepts: falsy, or a dict. *)
Definition usable_album (album : value) : bool :=
  negb (truthy album) || is_dict album.

(** A dict entry among the artists whose name, where it has one, is a
    string; and the same for its id. *)
Definition named_artist (artist : value) : bool :=
  match artist with
  | PDict a => is_str (dict_get a "name" (PStr "Unknown Artist"))
  | _ => true
  end.

Definition tagged_artist (artist : value) : bool :=
  match artist with
  | PDict a => is_str (dict_get a "id" (PStr "Unknown ID"))
  | _ => true
  end.

(** The entry wraps a track that can be read through: its artist value can
    be iterated, the dicts among the artists carry strings for name and id
    where they carry them, and its album is missing, empty or a dict.  This
    looks at the entry alone, not at what the collector makes of it. *)
Definition extractable (track_item : value) : bool :=
  match track_item with
  | PDict d =>
      match dict_get d "track" PNone with
      | PDict t =>
          match iter (dict_get t "artists" (PList [])) with
          | Val l => forallb joinable_artist l
          | Exn _ => false
          end
          && usable_album (dict_get t "album" (PDict []))
      | _ => false
      end
  | _ => false
  end.

(** The entry has a valid id and a track that can be read through. *)
Definition sound_entry (track_item : value) : bool :=
  has_valid_id track_item && extractable track_item.

(** The album field [k] of the track [t] as a record shows it: the album's
    own value when the album is a dict with that key, [dflt] when the album
    is missing, empty, not a dict, or lacks the key. *)
Definition album_text (t : list (string * value)) (k : string) (dflt : value) : value :=
  match lookup "album" t with
  | Some (PDict a) =>
      match lookup k a with
      | Some v => v
      | None => dflt
      end
  | _ => dflt
  end.

(** ** Sample data *)

Module Demo.

Definition artist (name id : string) : value :=
  PDict [("id", PStr id); ("name", PStr name)].

Definition track (id name : string) (artists : value) : value :=
  PDict [("id", PStr id);
         ("name", PStr name);
         ("popularity", PInt 57);
         ("explicit", PBool false);
         ("duration_ms", PInt 201000);
         ("album", PDict [("name", PStr "First Light");
                          ("release_date", PStr "2019-05-03")]);
         ("artists", artists)].

Definition entry (payload : value) : value :=
  PDict [("added_at", PStr "2024-02-01T10:00:00Z"); ("track", payload)].

Definition good : value :=
  entry (track "t1" "Blue" (PList [artist "Ann" "a1"; artist "Bob" "b1"])).

Definition other : value :=
  entry (track "t2" "Nobody" (PList [artist "Cy" "c1"])).

Definition third : value :=
  entry (track "t3" "Broken" (PList [artist "Di" "d1"])).

(** A slot whose track was removed from the catalogue. *)
Definition removed : value := entry PNone.

Definition null_artists : value :=
  entry (PDict [("id", PStr "t7"); ("name", PStr "Blue"); ("artists", PNone)]).

Definition null_popularity : value :=
  entry (PDict [("id", PStr "t8"); ("name", PStr "Blue"); ("popularity", PNone)]).

Definition bare : value := entry (PDict [("id", PStr "t9")]).

Definition playlist25 : list value := repeat good 10 ++ removed :: repeat good 14.

Definition page_ab : page :=
  {| items := [good; other]; next := PStr "https://api.example/v1/tracks?offset=2" |}.

Definition page_c : page := {| items := [third]; next := PNone |}.

Definition client : providers :=
  {| sp_playlist_tracks := fun _ playlist_id =>
       if String.eqb playlist_id "two-pages" then Val page_ab
       else if String.eqb playlist_id "twenty-five"
       then Val {| items := playlist25; next := PNone |}
       else if String.eqb playlist_id "null-artists"
       then Val {| items := [null_artists]; next := PNone |}
       else if String.eqb playlist_id "null-entry"
       then Val {| items := [good; PNone; good]; next := PNone |}
       else Exn (ProviderError "404");
     sp_next := fun _ results =>
       match next results with
       | PStr "https://api.example/v1/tracks?offset=2" => Val page_c
       | _ => Exn (ProviderError "404")
       end;
     genius_search_song := fun _ track_name _ =>
       match track_name with
       | PStr "Broken" => Exn (ProviderError "timeout")
       | PStr "Nobody" => Val None
       | _ => Val (Some {| lyrics := PStr "la la la" |})
       end |}.

Definition fresh : world :=
  {| history := []; disk := {| fs_dirs := []; fs_files := [] |} |}.

(** The world once the walker has fetched the one page of [playlist_id]. *)
Definition walked (playlist_id : string) : world :=
  {| history := [EvPrint (LogCollecting playlist_id); EvPlaylistTracks playlist_id];
     disk := disk fresh |}.

End Demo.

(** * More observations *)

(** The keys of a track record, in the order the record is built. *)
Definition record_columns : list string :=
  ["id"; "name"; "popularity"; "explicit"; "duration_ms"; "album_name";
   "album_release_date"; "artist_names"; "artist_ids"; "lyrics"].

(** A row without its lyrics field. *)
Definition without_lyrics (row : value) : list (string * value) :=
  match row with
  | PDict r => filter (fun kv => negb (String.eqb (fst kv) "lyrics")) r
  | _ => []
  end.

(** The base fields an entry contributes to the frame: those of its track
    when they can all be extracted, nothing otherwise.  No provider is
    consulted. *)
Definition base_rows (track_item : value) : list (list (string * value)) :=
  match track_item with
  | PDict d =>
      if truthy (dict_get d "track" PNone) then
        match track_fields (dict_get d "track" PNone) with
        | Val (Some x) => [ex_track_data x]
        | _ => []
        end
      else []
  | _ => []
  end.

(** The id an artist entry contributes to the joined ids: the value under
    its [id] key, read without a default. *)
Definition artist_id_text (artist : value) : string :=
  match artist with
  | PDict a =>
      match lookup "id" a with
      | Some (PStr s) => s
      | _ => ""
      end
  | _ => ""
  end.

(** The record [r] holds the eight base fields of the track [t]: the
    track's own value under a key it has, the default otherwise; the
    album's two fields as [album_text] gives them; the names of the dicts
    among the artists [l] of the track, and the ids of those that have one,
    joined with ", ", both empty where the track has no artist list. *)
Definition holds_base_fields (t r : list (string * value)) : Prop :=
  exists l,
    iter (dict_get t "artists" (PList [])) = Val l /\
    lookup "name" r
      = Some (match lookup "name" t with Some v => v | None => PStr "Unknown Track" end) /\
    lookup "popularity" r
      = Some (match lookup "popularity" t with Some v => v | None => PInt 0 end) /\
    lookup "explicit" r
      = Some (match lookup "explicit" t with Some v => v | None => PBool false end) /\
    lookup "duration_ms" r
      = Some (match lookup "duration_ms" t with Some v => v | None => PInt 0 end) /\
    lookup "album_name" r = Some (album_text t "name" (PStr "Unknown Album")) /\
    lookup "album_release_date" r
      = Some (album_text t "release_date" (PStr "Unknown Date")) /\
    lookup "artist_names" r
      = Some (PStr (String.concat ", " (map artist_name_text (filter is_dict l)))) /\
    lookup "artist_ids" r
      = Some (PStr (String.concat ", "
                      (map artist_id_text (filter is_dict_with_id l)))) /\
    (lookup "artists" t = None ->
     lookup "artist_names" r = Some (PStr "") /\
     lookup "artist_ids" r = Some (PStr "")).

(** The nine base fields of the track [t], read off the track itself: its
    own values under the keys it has and the defaults otherwise, the album's
    two fields, the names of the dicts among its artists and the ids of
    those that have one, joined with ", ". *)
Definition expected_fields (t : list (string * value)) : list (string * value) :=
  let artists := match iter (dict_get t "artists" (PList [])) with
                 | Val l => l
                 | Exn _ => []
                 end in
  [("id", dict_get t "id" PNone);
   ("name", dict_get t "name" (PStr "Unknown Track"));
   ("popularity", dict_get t "popularity" (PInt 0));
   ("explicit", dict_get t "explicit" (PBool false));
   ("duration_ms", dict_get t "duration_ms" (PInt 0));
   ("album_name", album_text t "name" (PStr "Unknown Album"));
   ("album_release_date", album_text t "release_date" (PStr "Unknown Date"));
   ("artist_names",
    PStr (String.concat ", " (map artist_name_text (filter is_dict artists))));
   ("artist_ids",
    PStr (String.concat ", " (map artist_id_text (filter is_dict_with_id artists))))].

(** What an entry is expected to add to the frame: the base fields of its
    track when it has a valid id and can be read through, nothing
    otherwise. *)
Definition expected_rows (track_item : value) : list (list (string * value)) :=
  match track_item with
  | PDict d =>
      match dict_get d "track" PNone with
      | PDict t => if sound_entry track_item then [expected_fields t] else []
      | _ => []
      end
  | _ => []
  end.

(** [row] is the record of the fields [fields] with a lyrics field added
    at its end. *)
Definition lyrics_added (fields : list (string * value)) (row : value) : Prop :=
  exists found, row = PDict (fields ++ [("lyrics", found)]).

(** Every page the provider can serve after [p] points to a further page. *)
Definition never_ending (P : providers) : Prop :=
  forall h p, exists q, sp_next P h p = Val q /\ truthy (next q) = true.

(** From history [h] on, the provider answers the page [p] with the pages
    [fetched] and then fails with [e]. *)
Inductive serves_until (P : providers)
  : list event -> page -> list page -> exn -> Prop :=
| serves_until_fails h p e :
    truthy (next p) = true ->
    sp_next P h p = Exn e ->
    serves_until P h p [] e
| serves_until_more h p q fetched e :
    truthy (next p) = true ->
    sp_next P h p = Val q ->
    serves_until P (h ++ [EvNext p]) q fetched e ->
    serves_until P h p (q :: fetched) e.

(** ** More sample data *)

Module Sample.

(** A provider whose second page is down. *)
Definition flaky : providers :=
  {| sp_playlist_tracks := fun _ _ => Val Demo.page_ab;
     sp_next := fun _ _ => Exn (ProviderError "503");
     genius_search_song := fun _ _ _ => Exn (ProviderError "503") |}.

(** A provider that hands out the same next pointer for ever. *)
Definition endless : providers :=
  {| sp_playlist_tracks := fun _ _ => Val Demo.page_ab;
     sp_next := fun _ _ => Val Demo.page_ab;
     genius_search_song := fun _ _ _ => Val None |}.

(** A run over the two-page playlist, and the frame it returns. *)
Definition two_page_run : outcome dataframe * world :=
  collect_playlist_data Demo.client 1 "two-pages" "data/raw/tracks.csv" Demo.fresh.

Definition two_page_frame : dataframe :=
  match fst two_page_run with
  | Ok df => df
  | _ => DataFrame []
  end.

(** What the extraction makes of [Demo.third]. *)
Definition third_fields : extracted :=
  {| ex_artist_names := "Di";
     ex_track_name := PStr "Broken";
     ex_track_data :=
       [("id", PStr "t3");
        ("name", PStr "Broken");
        ("popularity", PInt 57);
        ("explicit", PBool false);
        ("duration_ms", PInt 201000);
        ("album_name", PStr "First Light");
        ("album_release_date", PStr "2019-05-03");
        ("artist_names", PStr "Di");
        ("artist_ids", PStr "d1")] |}.

End Sample.

(** The ways the extraction of a track payload fails, with the exception
    each one raises inside the handler. *)
Inductive malformed : value -> exn -> Prop :=
| payload_not_a_dict track :
    is_dict track = false ->
    malformed track AttributeError
| artists_not_iterable t e :
    truthy (dict_get t "id" PNone) = true ->
    iter (dict_get t "artists" (PList [])) = Exn e ->
    malformed (PDict t) e
| album_not_a_dict t l :
    truthy (dict_get t "id" PNone) = true ->
    iter (dict_get t "artists" (PList [])) = Val l ->
    forallb joinable_artist l = true ->
    truthy (dict_get t "album" (PDict [])) = true ->
    is_dict (dict_get t "album" (PDict [])) = false ->
    malformed (PDict t) AttributeError.

(** * The rest of the class

    The constructor's check of the credentials, [get_track_features],
    [search_and_collect] and [get_recommendations].  What they print and
    ask the provider goes to a journal of its own, kept beside the [world]
    of the collection run; their pauses go to the world's history. *)

Module Discovery.

(** The exceptions met here: those of [exn], and two more. *)
Inductive failure : Type :=
| Builtin (e : exn)
| IndexError
| ValueError (msg : string).

Inductive result (A : Type) : Type :=
| Done (a : A)
| Failed (f : failure).
Arguments Done {A} a.
Arguments Failed {A} f.

Definition of_exc {A} (c : exc A) : result A :=
  match c with
  | Val a => Done a
  | Exn e => Failed (Builtin e)
  end.

(** [v[k]] for a string key [k] *)
Definition item (v : value) (k : string) : exc value :=
  match v with
  | PDict d =>
      match lookup k d with
      | Some x => Val x
      | None => Exn KeyError
      end
  | _ => Exn TypeError
  end.

(** [v[0]] *)
Definition first_of (v : value) : result value :=
  match v with
  | PList (x :: _) => Done x
  | PList [] => Failed IndexError
  | PStr (String c _) => Done (PStr (String c EmptyString))
  | PStr EmptyString => Failed IndexError
  | PDict _ => Failed (Builtin KeyError)
  | _ => Failed (Builtin TypeError)
  end.

(** [len(v)] *)
Definition len (v : value) : exc nat :=
  match v with
  | PList l => Val (length l)
  | PStr s => Val (String.length s)
  | PDict d => Val (length d)
  | _ => Exn TypeError
  end.

(** [a or b] *)
Definition or_else (a b : value) : value := if truthy a then a else b.

(** *** The constructor *)

(** The constants of [config.config] and the environment the module reads
    on import. *)
Record settings : Type := mk_settings {
  SPOTIFY_CLIENT_ID : value;
  SPOTIFY_CLIENT_SECRET : value;
  GENIUS_ACCESS_TOKEN : value
}.

Definition missing_spotify : string :=
  "Missing Spotify API credentials. Set them in .env file or provide as arguments.".

Definition missing_genius : string :=
  "Missing Genius API token. Set it in .env file.".

Section Construction.

(** What the three library constructors return. *)
Variables credentials_manager spotify_client genius_client : Type.

(** [SpotifyClientCredentials], [spotipy.Spotify] and
    [lyricsgenius.Genius]: each may raise on the arguments it is given. *)
Record library : Type := mk_library {
  SpotifyClientCredentials : value -> value -> exc credentials_manager;
  Spotify : credentials_manager -> exc spotify_client;
  Genius : value -> exc genius_client
}.

(** The Genius client as the collector keeps it: the object the
    constructor returned and the three attributes set on it. *)
Record genius_handle : Type := mk_genius_handle {
  api : genius_client;
  verbose : bool;
  remove_section_headers : bool;
  skip_non_songs : bool
}.

(** The attributes of a collector. *)
Record collector : Type := mk_collector {
  client_id : value;
  client_secret : value;
  genius_token : value;
  sp : spotify_client;
  genius : genius_handle
}.

(** [__init__]: the credentials are checked, the two clients built, and
    the Genius client's three attributes set. *)
Definition __init__ (lib : library) (cfg : settings)
                    (client_id client_secret genius_token : value)
  : result collector :=
  let self_client_id := or_else client_id (SPOTIFY_CLIENT_ID cfg) in
  let self_client_secret := or_else client_secret (SPOTIFY_CLIENT_SECRET cfg) in
  let self_genius_token := or_else genius_token (GENIUS_ACCESS_TOKEN cfg) in
  if negb (truthy self_client_id) || negb (truthy self_client_secret)
  then Failed (ValueError missing_spotify)
  else if negb (truthy self_genius_token)
  then Failed (ValueError missing_genius)
  else
    match SpotifyClientCredentials lib self_client_id self_client_secret with
    | Exn e => Failed (Builtin e)
    | Val client_credentials_manager =>
        match Spotify lib client_credentials_manager with
        | Exn e => Failed (Builtin e)
        | Val self_sp =>
            match Genius lib self_genius_token with
            | Exn e => Failed (Builtin e)
            | Val self_genius =>
                Done {| client_id := self_client_id;
                        client_secret := self_client_secret;
                        genius_token := self_genius_token;
                        sp := self_sp;
                        genius := {| api := self_genius;
                                     verbose := false;
                                     remove_section_headers := true;
                                     skip_non_songs := true |} |}
            end
        end
    end.

End Construction.

Arguments SpotifyClientCredentials {_ _ _} _ _ _.
Arguments Spotify {_ _ _} _ _.
Arguments Genius {_ _ _} _ _.
Arguments client_id {_ _} _.
Arguments client_secret {_ _} _.
Arguments genius_token {_ _} _.
Arguments sp {_ _} _.
Arguments genius {_ _} _.
Arguments api {_} _.
Arguments verbose {_} _.
Arguments remove_section_headers {_} _.
Arguments skip_non_songs {_} _.
Arguments __init__ {_ _ _} _ _ _ _ _.

(** *** Journal and effects *)

(** The lines these methods print. *)
Inductive line : Type :=
| FeaturesError (track_id : value) (f : failure)
| SearchError (search_type : string) (f : failure)
| NothingFound (search_type query : string)
| FoundCount (n : nat) (search_type query : string)
| InvalidItem (position : nat)
| ListedItem (position : nat) (name owner_display_name item_id : value)
| DisplayError (position : nat) (f : failure).

Inductive note : Type :=
| Said (l : line)
| AskedFeatures (track_id : value)
| AskedSearch (q search_type : string) (limit : Z)
| AskedRecommendations (seed_tracks seed_artists seed_genres : value) (limit : Z).

Record session : Type := mk_session {
  base : world;
  journal : list note
}.

(** The other endpoints of [self.sp]. *)
Record catalogue : Type := mk_catalogue {
  sp_audio_features : session -> value -> exc value;
  sp_search : session -> string -> string -> Z -> exc value;
  sp_recommendations : session -> value -> value -> value -> Z -> exc value
}.

Definition N (A : Type) : Type := session -> result A * session.

Definition ret {A} (a : A) : N A := fun s => (Done a, s).

Definition bind {A B} (c : N A) (k : A -> N B) : N B :=
  fun s =>
    match c s with
    | (Done a, s') => k a s'
    | (Failed f, s') => (Failed f, s')
    end.

Definition pure {A} (c : result A) : N A := fun s => (c, s).

Definition try_except {A} (c : N A) (handler : failure -> N A) : N A :=
  fun s =>
    match c s with
    | (Failed f, s') => handler f s'
    | r => r
    end.

Definition jot (n : note) (s : session) : session :=
  {| base := base s; journal := journal s ++ [n] |}.

Definition say (l : line) : N unit := fun s => (Done tt, jot (Said l) s).

(** A request: noted, the reply computed from the session before it. *)
Definition ask {A} (n : note) (reply : session -> exc A) : N A :=
  fun s => (of_exc (reply s), jot n s).

(** [time.sleep(secs)], recorded in the world's history. *)
Definition pause (secs : Z) : N unit :=
  fun s => (Done tt, {| base := record_event (EvSleep secs) (base s);
                        journal := journal s |}).

Declare Scope session_scope.
Delimit Scope session_scope with session.
Notation "x <- c ;; k" := (bind c (fun x => k))
  (at level 61, c at next level, right associativity) : session_scope.
Notation "c ;; k" := (bind c (fun _ => k))
  (at level 61, right associativity) : session_scope.

(** *** Pure parts of the methods *)

(** The result of [search_and_collect]'s last loop: the [id] of the first
    item that is a dict with an [id] key, [None] when there is none. *)
Fixpoint first_id (items : list value) : value :=
  match items with
  | [] => PNone
  | PDict d :: rest =>
      match lookup "id" d with
      | Some v => v
      | None => first_id rest
      end
  | _ :: rest => first_id rest
  end.

(** The record literal of [get_recommendations], lines 200 to 210: every
    field is read by subscript. *)
Definition strict_fields (track : value) : exc (list (string * value)) :=
  (track_id <- item track "id" ;;
   name <- item track "name" ;;
   popularity <- item track "popularity" ;;
   explicit <- item track "explicit" ;;
   duration_ms <- item track "duration_ms" ;;
   album <- item track "album" ;;
   album_name <- item album "name" ;;
   album' <- item track "album" ;;
   album_release_date <- item album' "release_date" ;;
   artists <- item track "artists" ;;
   l <- iter artists ;;
   names <- comprehension (fun artist => item artist "name") l ;;
   artist_names <- join ", " names ;;
   artists' <- item track "artists" ;;
   l' <- iter artists' ;;
   ids <- comprehension (fun artist => item artist "id") l' ;;
   artist_ids <- join ", " ids ;;
   Val [("id", track_id);
        ("name", name);
        ("popularity", popularity);
        ("explicit", explicit);
        ("duration_ms", duration_ms);
        ("album_name", album_name);
        ("album_release_date", album_release_date);
        ("artist_names", PStr artist_names);
        ("artist_ids", PStr artist_ids)])%exc.

Definition feature_keys : list string :=
  ["danceability"; "energy"; "key"; "loudness"; "mode"; "speechiness";
   "acousticness"; "instrumentalness"; "liveness"; "valence"; "tempo";
   "time_signature"].

(** [{k: features.get(k), ...}] over the keys, in order. *)
Fixpoint pick (features : value) (keys : list string) : exc (list (string * value)) :=
  match keys with
  | [] => Val []
  | k :: rest =>
      (v <- get features k PNone ;;
       picked <- pick features rest ;;
       Val ((k, v) :: picked))%exc
  end.

(** [track_data.update({...})]: the argument is built first, then merged
    key by key. *)
Definition with_features (track_data : list (string * value)) (features : value)
  : exc (list (string * value)) :=
  (picked <- pick features feature_keys ;;
   Val (fold_left (fun d kv => dict_set d (fst kv) (snd kv)) picked track_data))%exc.

(** The items the [try] block of [search_and_collect] reads out of the
    provider's reply. *)
Definition items_of (results : value) (search_type : string) : exc value :=
  (by_type <- get results (search_type ++ "s") (PDict []) ;;
   get by_type "items" (PList []))%exc.

Section Methods.

Variable C : catalogue.

Local Open Scope session_scope.

Definition get_track_features (track_id : value) : N value :=
  try_except
    (listed <- ask (AskedFeatures track_id) (fun s => sp_audio_features C s track_id) ;;
     features <- pure (first_of listed) ;;
     ret features)
    (fun f =>
       say (FeaturesError track_id f) ;;
       ret PNone).

(** The first loop of [search_and_collect]: one line per item. *)
Fixpoint show_items (i : nat) (items : list value) : N unit :=
  match items with
  | [] => ret tt
  | shown :: rest =>
      match shown with
      | PNone => say (InvalidItem (i + 1))
      | _ =>
          try_except
            (name <- pure (of_exc (get shown "name" (PStr "[No name]"))) ;;
             owner <- pure (of_exc (get shown "owner" (PDict []))) ;;
             let owner_dict := match owner with PNone => PDict [] | _ => owner end in
             owner_display_name <-
               pure (of_exc (get owner_dict "display_name" (PStr "[Unknown]"))) ;;
             item_id <- pure (of_exc (get shown "id" (PStr "[No ID]"))) ;;
             say (ListedItem (i + 1) name owner_display_name item_id))
            (fun f => say (DisplayError (i + 1) f))
      end ;;
      show_items (S i) rest
  end.

(** [None] from the [try] block stands for its early [return None]. *)
Definition search_and_collect (query search_type : string) (limit : Z) : N value :=
  found <-
    try_except
      (results <- ask (AskedSearch query search_type limit)
                      (fun s => sp_search C s query search_type limit) ;;
       items <- pure (of_exc (items_of results search_type)) ;;
       ret (Some items))
      (fun f =>
         say (SearchError search_type f) ;;
         ret None) ;;
  match found with
  | None => ret PNone
  | Some items =>
      if negb (truthy items) then
        say (NothingFound search_type query) ;;
        ret PNone
      else
        n <- pure (of_exc (len items)) ;;
        say (FoundCount n search_type query) ;;
        listed <- pure (of_exc (iter items)) ;;
        show_items 0 listed ;;
        again <- pure (of_exc (iter items)) ;;
        ret (first_id again)
  end.

(** [for i, track in enumerate(...)], from index [i] on. *)
Fixpoint recommend_from (i : nat) (tracks : list value) (all_track_data : list value)
  : N (list value) :=
  match tracks with
  | [] => ret all_track_data
  | track :: rest =>
      track_data <- pure (of_exc (strict_fields track)) ;;
      track_id <- pure (of_exc (item track "id")) ;;
      features <- get_track_features track_id ;;
      track_data' <-
        (if truthy features
         then pure (of_exc (with_features track_data features))
         else ret track_data) ;;
      (if Nat.eqb (i mod 50) 0 && Nat.ltb 0 i then pause 1 else ret tt) ;;
      recommend_from (S i) rest (all_track_data ++ [PDict track_data'])
  end.

Definition get_recommendations (seed_tracks seed_artists seed_genres : value)
                               (limit : Z) : N (list value) :=
  recommendations <-
    ask (AskedRecommendations seed_tracks seed_artists seed_genres limit)
        (fun s => sp_recommendations C s seed_tracks seed_artists seed_genres limit) ;;
  listed <- pure (of_exc (item recommendations "tracks")) ;;
  tracks <- pure (of_exc (iter listed)) ;;
  recommend_from 0 tracks [].

End Methods.

(** A provider whose audio features are dicts or null, as documented. *)
Definition tame (C : catalogue) : Prop :=
  forall s track_id listed features,
    sp_audio_features C s track_id = Val listed ->
    first_of listed = Done features ->
    truthy features = true ->
    is_dict features = true.

(** The test of line 233. *)
Definition cadence50 (i : nat) : bool := Nat.eqb (i mod 50) 0 && Nat.ltb 0 i.

(** The session after the pause step of index [i]. *)
Definition after_pause (i : nat) (s : session) : session :=
  if cadence50 i
  then {| base := record_event (EvSleep 1) (base s); journal := journal s |}
  else s.

(** The features a request for [track_id] made in session [s] comes back
    with: the first element of the reply, null when there is none. *)
Definition features_reply (C : catalogue) (s : session) (track_id : value) : value :=
  match sp_audio_features C s track_id with
  | Val listed =>
      match first_of listed with
      | Done features => features
      | Failed _ => PNone
      end
  | Exn _ => PNone
  end.

(** The twelve fields a row gets from [features]: each key with the value
    the features hold for it, null where they hold none; no field at all
    when the features are null or empty. *)
Definition feature_fields (features : value) : list (string * value) :=
  match features with
  | PDict fd =>
      if truthy features
      then map (fun k => (k, match lookup k fd with
                             | Some v => v
                             | None => PNone
                             end)) feature_keys
      else []
  | _ => []
  end.

(** [row] is what [get_recommendations] makes of [track]: its nine strict
    fields, followed by the feature fields of a reply to a request for its
    id. *)
Definition row_of (C : catalogue) (track row : value) : Prop :=
  exists data track_id s0,
    strict_fields track = Val data /\
    item track "id" = Val track_id /\
    row = PDict (data ++ feature_fields (features_reply C s0 track_id)).






End Discovery.

(** ** Sample catalogue *)

Module Shelf.

Import Discovery.

Definition playlist (name id : string) : value :=
  PDict [("name", PStr name);
         ("owner", PDict [("display_name", PStr "ann")]);
         ("id", PStr id)].

Definition track (id : string) : value :=
  PDict [("id", PStr id);
         ("name", PStr "Blue");
         ("popularity", PInt 57);
         ("explicit", PBool false);
         ("duration_ms", PInt 201000);
         ("album", PDict [("name", PStr "First Light");
                          ("release_date", PStr "2019-05-03")]);
         ("artists", PList [Demo.artist "Ann" "a1"])].

(** A track without its popularity. *)
Definition partial (id : string) : value :=
  PDict [("id", PStr id); ("name", PStr "Blue")].

Definition features : value :=
  PDict [("danceability", PFloat (7 # 10)); ("tempo", PInt 120)].

Definition client : catalogue :=
  {| sp_audio_features := fun _ track_id =>
       match track_id with
       | PStr "t1" => Val (PList [features])
       | PStr "t2" => Val (PList [PNone])
       | PStr "t3" => Val (PList [])
       | _ => Exn (ProviderError "429")
       end;
     sp_search := fun _ q _ _ =>
       if String.eqb q "chill" then
         Val (PDict [("playlists",
                      PDict [("items",
                              PList [PNone;
                                     PDict [("name", PStr "No id")];
                                     playlist "Chill one" "p1";
                                     playlist "Chill two" "p2"])])])
       else if String.eqb q "void" then
         Val (PDict [("playlists", PDict [("items", PList [])])])
       else if String.eqb q "odd" then
         Val (PDict [("playlists", PDict [("items", PInt 5)])])
       else Exn (ProviderError "401");
     sp_recommendations := fun _ _ _ seed_genres _ =>
       match seed_genres with
       | PList [PStr "jazz"] =>
           Val (PDict [("tracks", PList [track "t1"; track "t2"; track "t3"])])
       | PList [PStr "rock"] =>
           Val (PDict [("tracks", PList [track "t1"; partial "t2"; track "t3"])])
       | _ => Exn (ProviderError "400")
       end |}.

(** The same catalogue with audio features for every track. *)
Definition steady : catalogue :=
  {| sp_audio_features := fun _ _ => Val (PList [features]);
     sp_search := sp_search client;
     sp_recommendations := sp_recommendations client |}.

Definition jazz : list value := [track "t1"; track "t2"; track "t3"].

Definition fresh : session := {| base := Demo.fresh; journal := [] |}.

(** Constructors that accept strings only. *)
Definition strings_only : library unit unit unit :=
  {| SpotifyClientCredentials := fun id secret =>
       if is_str id && is_str secret then Val tt else Exn TypeError;
     Spotify := fun _ => Val tt;
     Genius := fun token => if is_str token then Val tt else Exn TypeError |}.

End Shelf.

(** * Properties *)

(** ** Histories *)

Lemma extends_refl q w : extends q w w.
Proof. exists []. now rewrite app_nil_r. Qed.

Lemma extends_trans q w1 w2 w3 : extends q w1 w2 -> extends q w2 w3 -> extends q w1 w3.
Proof.
  intros [e1 [H1 Q1]] [e2 [H2 Q2]]. exists (e1 ++ e2). split.
  - now rewrite H2, H1, app_assoc.
  - rewrite forallb_app. now rewrite Q1, Q2.
Qed.

Lemma extends_event q ev w : q ev = true -> extends q w (record_event ev w).
Proof. intros Q. exists [ev]. simpl. now rewrite Q. Qed.

Lemma extends_weaken (q q' : event -> bool) w w' :
  (forall ev, q ev = true -> q' ev = true) -> extends q w w' -> extends q' w w'.
Proof.
  intros Hq [evs [H Q]]. exists evs. split; [exact H|].
  rewrite forallb_forall in *. auto.
Qed.

Lemma grows_refl q w : grows q w w.
Proof. split; [reflexivity|apply extends_refl]. Qed.

Lemma grows_trans q w1 w2 w3 : grows q w1 w2 -> grows q w2 w3 -> grows q w1 w3.
Proof.
  intros [D1 E1] [D2 E2]. split; [congruence|]. eapply extends_trans; eassumption.
Qed.

Lemma grows_event q ev w : q ev = true -> grows q w (record_event ev w).
Proof. intros Q. split; [reflexivity|now apply extends_event]. Qed.

Lemma enricher_silent ev : enricher_event ev = true -> silent ev = true.
Proof.
  destruct ev as [| | |l| | |]; try discriminate; try reflexivity.
  destruct l; try discriminate; reflexivity.
Qed.

Lemma silent_keeps_sleeps w w' :
  extends silent w w' -> sleeps (history w') = sleeps (history w).
Proof.
  intros [evs [-> Q]]. unfold sleeps. rewrite flat_map_app.
  rewrite <- app_nil_r. f_equal.
  induction evs as [|ev evs IH]; [reflexivity|].
  simpl in Q. apply andb_prop in Q as [Q1 Q2]. simpl. rewrite (IH Q2).
  destruct ev; try discriminate; reflexivity.
Qed.

Lemma silent_keeps_marks w w' :
  extends silent w w' -> progress_marks (history w') = progress_marks (history w).
Proof.
  intros [evs [-> Q]]. unfold progress_marks. rewrite flat_map_app.
  rewrite <- app_nil_r. f_equal.
  induction evs as [|ev evs IH]; [reflexivity|].
  simpl in Q. apply andb_prop in Q as [Q1 Q2]. simpl. rewrite (IH Q2).
  destruct ev as [| | |l| | |]; try discriminate; try reflexivity.
  destruct l; try discriminate; reflexivity.
Qed.

Lemma enricher_keeps_sleeps w w' :
  grows enricher_event w w' -> sleeps (history w') = sleeps (history w).
Proof.
  intros [_ E]. apply silent_keeps_sleeps.
  exact (extends_weaken _ _ _ _ enricher_silent E).
Qed.

Lemma enricher_keeps_marks w w' :
  grows enricher_event w w' -> progress_marks (history w') = progress_marks (history w).
Proof.
  intros [_ E]. apply silent_keeps_marks.
  exact (extends_weaken _ _ _ _ enricher_silent E).
Qed.

(** ** The monad's equations *)

Lemma bind_ok {A B} (c : M A) (k : A -> M B) w a w' :
  c w = (Ok a, w') -> bind c k w = k a w'.
Proof. intros H. unfold bind. now rewrite H. Qed.

Lemma bind_raise {A B} (c : M A) (k : A -> M B) w e w' :
  c w = (Raise e, w') -> bind c k w = (Raise e, w').
Proof. intros H. unfold bind. now rewrite H. Qed.

(** ** The lyrics fetcher *)

Lemma get_lyrics_eq P artist_name track_name w :
  get_lyrics P artist_name track_name w =
  let w1 := record_event (EvSearchSong track_name artist_name) w in
  match genius_search_song P (history w) track_name artist_name with
  | Val (Some s) => (Ok (lyrics s), w1)
  | Val None => (Ok PNone, w1)
  | Exn e =>
      (Ok PNone, record_event (EvPrint (LogLyricsError track_name artist_name e)) w1)
  end.
Proof.
  unfold get_lyrics, try_except, bind, call, lift, print, emit, ret.
  destruct (genius_search_song P (history w) track_name artist_name) as [[s|]|e];
    reflexivity.
Qed.

Lemma get_lyrics_ok P artist_name track_name w :
  exists v w',
    get_lyrics P artist_name track_name w = (Ok v, w') /\
    grows enricher_event w w' /\
    searches (history w') = searches (history w) ++ [(track_name, artist_name)].
Proof.
  rewrite get_lyrics_eq. cbv zeta.
  destruct (genius_search_song P (history w) track_name artist_name) as [[s|]|e];
    eexists; eexists; (split; [reflexivity|]); split.
  all: try (apply grows_event; reflexivity).
  all: try (unfold searches; simpl; rewrite flat_map_app; reflexivity).
  - eapply grows_trans; apply grows_event; reflexivity.
  - unfold searches; simpl. rewrite !flat_map_app. simpl. now rewrite app_nil_r.
Qed.

(** ** The track enricher *)

Lemma add_lyrics_skip P x w :
  wants_lyrics x = false ->
  add_lyrics P x w = (Ok (PDict (dict_set (ex_track_data x) "lyrics" PNone)), w).
Proof.
  intros H. unfold add_lyrics. fold (wants_lyrics x). now rewrite H.
Qed.

Lemma add_lyrics_fetch P x w :
  wants_lyrics x = true ->
  exists v w',
    get_lyrics P (PStr (ex_artist_names x)) (ex_track_name x) w = (Ok v, w') /\
    add_lyrics P x w = (Ok (PDict (dict_set (ex_track_data x) "lyrics" v)), w') /\
    grows enricher_event w w' /\
    searches (history w') =
      searches (history w) ++ [(ex_track_name x, PStr (ex_artist_names x))].
Proof.
  intros H. unfold add_lyrics. fold (wants_lyrics x). rewrite H.
  destruct (get_lyrics_ok P (PStr (ex_artist_names x)) (ex_track_name x) w)
    as [v [w' [E [G S]]]].
  exists v, w'. split; [exact E|]. now rewrite (bind_ok _ _ _ _ _ E).
Qed.

Lemma dict_set_truthy d k v : truthy (PDict (dict_set d k v)) = true.
Proof.
  destruct d as [|[k' v'] d]; simpl; [reflexivity|].
  destruct (String.eqb k k'); reflexivity.
Qed.

Lemma add_lyrics_ok P x w :
  exists r w',
    add_lyrics P x w = (Ok (PDict r), w') /\
    truthy (PDict r) = true /\
    grows enricher_event w w'.
Proof.
  destruct (wants_lyrics x) eqn:H.
  - destruct (add_lyrics_fetch P x w H) as [v [w' [_ [E [G _]]]]].
    eexists; eexists. split; [exact E|]. split; [apply dict_set_truthy|exact G].
  - eexists; eexists. split; [apply (add_lyrics_skip P x w H)|].
    split; [apply dict_set_truthy|apply grows_refl].
Qed.

(** [get_track_data] on an entry that is a dict, case by case. *)
Lemma get_track_data_dict P d w :
  get_track_data P (PDict d) w =
  let track := dict_get d "track" PNone in
  if negb (truthy track) then (Ok PNone, w)
  else
    match track_fields track with
    | Val (Some x) => add_lyrics P x w
    | Val None => (Ok PNone, w)
    | Exn e => (Ok PNone, record_event (EvPrint (LogTrackError e)) w)
    end.
Proof.
  unfold get_track_data. cbn [get]. unfold bind at 1. cbn [lift]. cbv zeta.
  destruct (negb (truthy (dict_get d "track" PNone))); [reflexivity|].
  unfold try_except, extract, bind at 1, lift.
  destruct (track_fields (dict_get d "track" PNone)) as [[x|]|e]; try reflexivity.
  destruct (add_lyrics_ok P x w) as [r [w' [E _]]]. now rewrite E.
Qed.

Lemma track_fields_some_id track x :
  track_fields track = Val (Some x) ->
  exists t, track = PDict t /\ truthy (dict_get t "id" PNone) = true.
Proof.
  destruct track as [| | | | | |t]; try discriminate.
  intros H. exists t. split; [reflexivity|].
  unfold track_fields in H. cbn [get exc_bind] in H.
  destruct (truthy (dict_get t "id" PNone)); [reflexivity|discriminate].
Qed.

Lemma builds_record_valid_id v : builds_record v = true -> has_valid_id v = true.
Proof.
  destruct v as [| | | | | |d]; try discriminate. unfold builds_record, has_valid_id.
  intros H. apply andb_prop in H as [H1 H2].
  destruct (track_fields (dict_get d "track" PNone)) as [[x|]|e] eqn:E; try discriminate.
  destruct (track_fields_some_id _ _ E) as [t [Et Hid]].
  rewrite Et in *. now rewrite H1, Hid.
Qed.

Lemma get_track_data_record P d w :
  builds_record (PDict d) = true ->
  exists r w',
    get_track_data P (PDict d) w = (Ok (PDict r), w') /\
    truthy (PDict r) = true /\
    grows enricher_event w w'.
Proof.
  unfold builds_record. intros H. apply andb_prop in H as [H1 H2].
  rewrite get_track_data_dict. cbv zeta. rewrite H1. cbn [negb].
  destruct (track_fields (dict_get d "track" PNone)) as [[x|]|e]; try discriminate.
  apply add_lyrics_ok.
Qed.

Lemma get_track_data_null P d w :
  builds_record (PDict d) = false ->
  exists w',
    get_track_data P (PDict d) w = (Ok PNone, w') /\
    grows enricher_event w w' /\
    searches (history w') = searches (history w).
Proof.
  unfold builds_record. intros H.
  rewrite get_track_data_dict. cbv zeta.
  destruct (truthy (dict_get d "track" PNone)); cbn [negb andb] in *.
  - destruct (track_fields (dict_get d "track" PNone)) as [[x|]|e]; try discriminate.
    + exists w. split; [reflexivity|]. split; [apply grows_refl|reflexivity].
    + eexists. split; [reflexivity|]. split; [apply grows_event; reflexivity|].
      unfold searches. cbn. rewrite flat_map_app. cbn. now rewrite app_nil_r.
  - exists w. split; [reflexivity|]. split; [apply grows_refl|reflexivity].
Qed.

(** An entry that is a dict never makes [get_track_data] raise. *)
Lemma get_track_data_total P d w :
  exists v w',
    get_track_data P (PDict d) w = (Ok v, w') /\
    truthy v = builds_record (PDict d) /\
    grows enricher_event w w'.
Proof.
  destruct (builds_record (PDict d)) eqn:B.
  - destruct (get_track_data_record P d w B) as [r [w' [E [T G]]]].
    exists (PDict r), w'. auto.
  - destruct (get_track_data_null P d w B) as [w' [E [G _]]].
    exists PNone, w'. auto.
Qed.

Lemma get_track_data_not_dict P v w :
  is_dict v = false -> get_track_data P v w = (Raise AttributeError, w).
Proof.
  destruct v; try discriminate; reflexivity.
Qed.

(** What a successful extraction returns, field by field. *)
Lemma track_fields_some track x :
  track_fields track = Val (Some x) ->
  exists t artist_ids album_name album_release_date,
    track = PDict t /\
    truthy (dict_get t "id" PNone) = true /\
    join_artist_names (dict_get t "artists" (PList [])) = Val (ex_artist_names x) /\
    join_artist_ids (dict_get t "artists" (PList [])) = Val artist_ids /\
    ex_track_name x = dict_get t "name" (PStr "Unknown Track") /\
    album_field (dict_get t "album" (PDict [])) "name" (PStr "Unknown Album")
      = Val album_name /\
    album_field (dict_get t "album" (PDict [])) "release_date" (PStr "Unknown Date")
      = Val album_release_date /\
    ex_track_data x =
      [("id", dict_get t "id" PNone);
       ("name", dict_get t "name" (PStr "Unknown Track"));
       ("popularity", dict_get t "popularity" (PInt 0));
       ("explicit", dict_get t "explicit" (PBool false));
       ("duration_ms", dict_get t "duration_ms" (PInt 0));
       ("album_name", album_name);
       ("album_release_date", album_release_date);
       ("artist_names", PStr (ex_artist_names x));
       ("artist_ids", PStr artist_ids)].
Proof.
  destruct track as [| | | | | |t]; try discriminate.
  unfold track_fields. cbn [get exc_bind].
  destruct (truthy (dict_get t "id" PNone)) eqn:Hid; [|discriminate]. cbn [negb].
  destruct (join_artist_names (dict_get t "artists" (PList []))) as [names|] eqn:Hn;
    [|discriminate].
  destruct (join_artist_ids (dict_get t "artists" (PList []))) as [ids|] eqn:Hi;
    [|discriminate].
  cbn [exc_bind].
  destruct (album_field (dict_get t "album" (PDict [])) "name" (PStr "Unknown Album"))
    as [an|] eqn:Han; [|discriminate].
  destruct (album_field (dict_get t "album" (PDict [])) "release_date"
                        (PStr "Unknown Date")) as [ad|] eqn:Had; [|discriminate].
  cbn [exc_bind]. intros [= <-]. exists t, ids, an, ad. cbn. auto 10.
Qed.

(** And the converse: when each step succeeds, so does the extraction. *)
Lemma track_fields_builds t names ids an ad :
  truthy (dict_get t "id" PNone) = true ->
  join_artist_names (dict_get t "artists" (PList [])) = Val names ->
  join_artist_ids (dict_get t "artists" (PList [])) = Val ids ->
  album_field (dict_get t "album" (PDict [])) "name" (PStr "Unknown Album") = Val an ->
  album_field (dict_get t "album" (PDict [])) "release_date" (PStr "Unknown Date")
    = Val ad ->
  exists x, track_fields (PDict t) = Val (Some x) /\ ex_artist_names x = names.
Proof.
  intros Hid Hn Hi Han Had. unfold track_fields. cbn [get exc_bind].
  rewrite Hid. cbn [negb]. rewrite Hn, Hi. cbn [exc_bind]. rewrite Han, Had.
  cbn [exc_bind]. eexists. split; reflexivity.
Qed.

(** ** The orchestrator's loop *)

Lemma throttle_eq i w : throttle i w = (Ok tt, after_throttle i w).
Proof.
  unfold throttle, after_throttle. fold (cadence i).
  destruct (cadence i); reflexivity.
Qed.

Lemma after_throttle_disk i w : disk (after_throttle i w) = disk w.
Proof. unfold after_throttle. destruct (cadence i); reflexivity. Qed.

Lemma after_throttle_marks i w :
  progress_marks (history (after_throttle i w)) =
  progress_marks (history w) ++ (if cadence i then [i] else []).
Proof.
  unfold after_throttle, progress_marks. destruct (cadence i); simpl.
  - rewrite !flat_map_app. simpl. now rewrite app_nil_r.
  - now rewrite app_nil_r.
Qed.

Lemma after_throttle_sleeps i w :
  sleeps (history (after_throttle i w)) =
  sleeps (history w) ++ (if cadence i then [2%Z] else []).
Proof.
  unfold after_throttle, sleeps. destruct (cadence i); simpl.
  - rewrite !flat_map_app. simpl. now rewrite app_nil_r.
  - now rewrite app_nil_r.
Qed.

(** One turn of the loop, once the enricher has answered. *)
Lemma enrich_from_step P i track_item rest acc w v w1 :
  get_track_data P track_item w = (Ok v, w1) ->
  enrich_from P i (track_item :: rest) acc w =
  enrich_from P (S i) rest (if truthy v then acc ++ [v] else acc) (after_throttle i w1).
Proof.
  intros E. cbn [enrich_from]. rewrite (bind_ok _ _ _ _ _ E).
  now rewrite (bind_ok _ _ _ _ _ (throttle_eq i w1)).
Qed.

Lemma enrich_from_raise P i track_item rest acc w e w1 :
  get_track_data P track_item w = (Raise e, w1) ->
  enrich_from P i (track_item :: rest) acc w = (Raise e, w1).
Proof.
  intros E. cbn [enrich_from]. now rewrite (bind_raise _ _ _ _ _ E).
Qed.

(** A playlist of dicts is processed to the end. *)
Lemma enrich_from_dicts P tracks :
  Forall (fun v => is_dict v = true) tracks ->
  forall i acc w,
  exists rows w',
    enrich_from P i tracks acc w = (Ok (acc ++ rows), w') /\
    length rows = length (filter builds_record tracks) /\
    disk w' = disk w /\
    progress_marks (history w') =
      progress_marks (history w) ++ pauses i (length tracks) /\
    sleeps (history w') =
      sleeps (history w) ++ map (fun _ => 2%Z) (pauses i (length tracks)).
Proof.
  induction 1 as [|v tracks Hv _ IH]; intros i acc w.
  - exists [], w. cbn. rewrite !app_nil_r. auto.
  - destruct v as [| | | | | |d]; try discriminate.
    destruct (get_track_data_total P d w) as [r [w1 [E [T G]]]].
    rewrite (enrich_from_step _ _ _ _ _ _ _ _ E).
    destruct (IH (S i) (if truthy r then acc ++ [r] else acc) (after_throttle i w1))
      as [rows [w' [E' [L [D [Mk Sl]]]]]].
    rewrite after_throttle_disk in D. rewrite after_throttle_marks in Mk.
    rewrite after_throttle_sleeps in Sl.
    rewrite (enricher_keeps_marks _ _ G) in Mk.
    rewrite (enricher_keeps_sleeps _ _ G) in Sl.
    destruct G as [Dg _].
    exists ((if truthy r then [r] else []) ++ rows), w'.
    split; [|split; [|split; [congruence|split]]].
    + rewrite E'. destruct (truthy r); [now rewrite <- app_assoc|reflexivity].
    + cbn [filter]. rewrite <- T, length_app, L. destruct (truthy r); reflexivity.
    + rewrite Mk, <- app_assoc. unfold pauses. cbn [length seq filter].
      destruct (cadence i); reflexivity.
    + rewrite Sl, <- app_assoc. unfold pauses. cbn [length seq filter].
      destruct (cadence i); reflexivity.
Qed.

(** An entry that is not a dict stops the loop where it stands. *)
Lemma enrich_from_aborts P tracks :
  existsb (fun v => negb (is_dict v)) tracks = true ->
  forall i acc w,
  exists w',
    enrich_from P i tracks acc w = (Raise AttributeError, w') /\
    disk w' = disk w.
Proof.
  induction tracks as [|v tracks IH]; [discriminate|]. intros H i acc w.
  destruct (is_dict v) eqn:Dv.
  - cbn [existsb] in H. rewrite Dv in H. cbn in H.
    destruct v as [| | | | | |d]; try discriminate.
    destruct (get_track_data_total P d w) as [r [w1 [E [_ [Dg _]]]]].
    rewrite (enrich_from_step _ _ _ _ _ _ _ _ E).
    destruct (IH H (S i) (if truthy r then acc ++ [r] else acc) (after_throttle i w1))
      as [w' [E' D]].
    exists w'. split; [exact E'|]. rewrite D, after_throttle_disk. exact Dg.
  - exists w. split; [|reflexivity].
    apply enrich_from_raise. now apply get_track_data_not_dict.
Qed.

(** ** The pagination walker *)

Lemma follow_next_serves P h p rest :
  serves P h p rest ->
  forall fuel tracks w,
    history w = h ->
    length rest <= fuel ->
    follow_next P fuel p tracks w =
    (Ok (tracks ++ concat (map items rest)),
     {| history := history w ++ followed p rest; disk := disk w |}).
Proof.
  induction 1 as [h p Hn | h p q rest Hn Hq _ IH]; intros fuel tracks w Hw Hf.
  - destruct fuel; cbn [follow_next]; rewrite Hn; unfold ret; cbn;
      rewrite !app_nil_r; destruct w; reflexivity.
  - destruct fuel as [|fuel]; [cbn in Hf; lia|].
    cbn [follow_next]. rewrite Hn.
    assert (E : call (EvNext p) (fun h0 => sp_next P h0 p) w
                = (Ok q, record_event (EvNext p) w)).
    { unfold call. rewrite Hw, Hq. reflexivity. }
    rewrite (bind_ok _ _ _ _ _ E).
    rewrite (IH fuel (tracks ++ items q) (record_event (EvNext p) w)).
    + cbn. now rewrite <- !app_assoc.
    + cbn. now rewrite Hw.
    + cbn in Hf. lia.
Qed.

(** The walker neither pauses nor touches the disk, however it ends. *)
Lemma follow_next_grows P fuel :
  forall p tracks w r w',
    follow_next P fuel p tracks w = (r, w') -> grows silent w w'.
Proof.
  induction fuel as [|fuel IH]; intros p tracks w r w'; cbn [follow_next];
    destruct (truthy (next p)); unfold ret;
    try (intros [= <- <-]; apply grows_refl).
  unfold bind, call, lift.
  destruct (sp_next P (history w) p) as [q|e].
  - intros H. eapply grows_trans; [|exact (IH _ _ _ _ _ H)].
    apply grows_event. reflexivity.
  - intros [= <- <-]. apply grows_event. reflexivity.
Qed.

Lemma get_playlist_tracks_grows P fuel playlist_id w r w' :
  get_playlist_tracks P fuel playlist_id w = (r, w') -> grows silent w w'.
Proof.
  unfold get_playlist_tracks, bind, call, lift.
  destruct (sp_playlist_tracks P (history w) playlist_id) as [q|e].
  - intros H. eapply grows_trans; [|exact (follow_next_grows _ _ _ _ _ _ _ H)].
    apply grows_event. reflexivity.
  - intros [= <- <-]. apply grows_event. reflexivity.
Qed.

(** ** The orchestrator *)

Lemma collect_saves P fuel playlist_id output_file w tracks w1 rows w2 :
  get_playlist_tracks P fuel playlist_id (announced playlist_id w) = (Ok tracks, w1) ->
  enrich_from P 0 tracks [] (counted tracks w1) = (Ok rows, w2) ->
  collect_playlist_data P fuel playlist_id output_file w = save rows output_file w2.
Proof.
  intros E1 E2. unfold collect_playlist_data, bind at 1, print, emit.
  fold (announced playlist_id w).
  rewrite (bind_ok _ _ _ _ _ E1). unfold bind at 1, emit. fold (counted tracks w1).
  now rewrite (bind_ok _ _ _ _ _ E2).
Qed.

Lemma collect_aborts P fuel playlist_id output_file w tracks w1 e w2 :
  get_playlist_tracks P fuel playlist_id (announced playlist_id w) = (Ok tracks, w1) ->
  enrich_from P 0 tracks [] (counted tracks w1) = (Raise e, w2) ->
  collect_playlist_data P fuel playlist_id output_file w = (Raise e, w2).
Proof.
  intros E1 E2. unfold collect_playlist_data, bind at 1, print, emit.
  fold (announced playlist_id w).
  rewrite (bind_ok _ _ _ _ _ E1). unfold bind at 1, emit. fold (counted tracks w1).
  now rewrite (bind_raise _ _ _ _ _ E2).
Qed.

(** Saving never pauses, and what it returns is the frame of the rows. *)
Lemma save_extends rows output_file w r w' :
  save rows output_file w = (r, w') ->
  extends silent w w' /\ (forall df, r = Ok df -> df = DataFrame rows).
Proof.
  unfold save, bind, os_makedirs, to_csv, syscall, print, emit, ret.
  destruct (makedirs_exist_ok (disk w) (Posix.dirname output_file)) as [d1|e1]; cbn.
  - destruct (write_csv d1 output_file (DataFrame rows)) as [d2|e2]; cbn;
      intros [= <- <-]; (split; [|intros df [= <-] || intros df [=]; reflexivity]).
    + exists [EvMakedirs (Posix.dirname output_file);
              EvToCsv output_file (DataFrame rows);
              EvPrint (LogSaved output_file)].
      cbn. rewrite <- !app_assoc. auto.
    + exists [EvMakedirs (Posix.dirname output_file);
              EvToCsv output_file (DataFrame rows)].
      cbn. rewrite <- !app_assoc. auto.
  - intros [= <- <-]. split; [|intros df [=]].
    apply extends_event. reflexivity.
Qed.

Lemma dirname_no_sep p : Posix.has_sep p = false -> Posix.dirname p = "".
Proof.
  intros H. unfold Posix.dirname.
  assert (E : Posix.upto_last_sep p = "").
  { destruct p as [|c r]; [reflexivity|]. cbn in *.
    apply orb_false_elim in H as [Hc Hr]. now rewrite Hr, Hc. }
  rewrite E. reflexivity.
Qed.

Lemma save_no_directory rows output_file w :
  Posix.has_sep output_file = false ->
  save rows output_file w =
  (Raise FileNotFoundError, record_event (EvMakedirs "") w).
Proof.
  intros H. unfold save. rewrite (dirname_no_sep _ H). reflexivity.
Qed.

(** ** Counting, joining and the album *)

Lemma filter_length_mono {A} (f g : A -> bool) (l : list A) :
  (forall x, f x = true -> g x = true) ->
  length (filter f l) <= length (filter g l).
Proof.
  intros H. induction l as [|x l IH]; [reflexivity|]. cbn.
  destruct (f x) eqn:F.
  - rewrite (H x F). cbn. lia.
  - destruct (g x); cbn; lia.
Qed.

Lemma filter_length_all {A} (f : A -> bool) (l : list A) :
  length (filter f l) <= length l.
Proof.
  induction l as [|x l IH]; [reflexivity|]. cbn. destruct (f x); cbn; lia.
Qed.

Lemma filter_all {A} (f : A -> bool) (l : list A) :
  forallb f l = true -> filter f l = l.
Proof.
  induction l as [|x l IH]; [reflexivity|]. cbn. intros H.
  apply andb_prop in H as [H1 H2]. now rewrite H1, (IH H2).
Qed.

(** An entry without payload, or whose track has no id, gives null and
    leaves the world as it was. *)
Lemma get_track_data_lacking P d w :
  lacks_track d || lacks_id d = true ->
  get_track_data P (PDict d) w = (Ok PNone, w) /\ builds_record (PDict d) = false.
Proof.
  unfold lacks_track, lacks_id, builds_record. intros H.
  rewrite get_track_data_dict. cbv zeta.
  destruct (truthy (dict_get d "track" PNone)) eqn:T; cbn [negb andb orb] in *;
    [|split; reflexivity].
  destruct (dict_get d "track" PNone) as [| | | | | |t]; try discriminate.
  unfold track_fields. cbn [get exc_bind]. rewrite H. split; reflexivity.
Qed.

Lemma strings_of_texts {A} (f : A -> string) (l : list A) :
  strings_of (map (fun a => PStr (f a)) l) = Val (map f l).
Proof.
  induction l as [|a l IH]; [reflexivity|]. cbn. now rewrite IH.
Qed.

Lemma strings_of_strings ss : strings_of (map PStr ss) = Val ss.
Proof.
  induction ss as [|s ss IH]; [reflexivity|]. cbn. now rewrite IH.
Qed.

Lemma comprehension_names l :
  forallb joinable_artist l = true ->
  comprehension (fun artist => get artist "name" (PStr "Unknown Artist"))
                (filter is_dict l)
  = Val (map (fun a => PStr (artist_name_text a)) (filter is_dict l)).
Proof.
  induction l as [|a l IH]; [reflexivity|]. cbn [forallb]. intros H.
  apply andb_prop in H as [Ha Hl]. specialize (IH Hl).
  destruct a as [| | | | | |ad]; cbn [filter is_dict]; try exact IH.
  cbn [comprehension get exc_bind map]. rewrite IH. cbn [exc_bind].
  unfold joinable_artist in Ha. apply andb_prop in Ha as [Hname _].
  unfold artist_name_text.
  destruct (dict_get ad "name" (PStr "Unknown Artist")); try discriminate.
  reflexivity.
Qed.

Lemma join_artist_names_joinable artists l :
  iter artists = Val l ->
  forallb joinable_artist l = true ->
  join_artist_names artists
  = Val (String.concat ", " (map artist_name_text (filter is_dict l))).
Proof.
  intros Hi Hl. unfold join_artist_names. rewrite Hi. cbn [exc_bind].
  rewrite (comprehension_names l Hl). cbn [exc_bind]. unfold join.
  now rewrite strings_of_texts.
Qed.

Lemma join_artist_ids_joinable artists l :
  iter artists = Val l ->
  forallb joinable_artist l = true ->
  exists ids, join_artist_ids artists = Val ids.
Proof.
  intros Hi Hl. unfold join_artist_ids. rewrite Hi. cbn [exc_bind].
  assert (E : exists ss,
             comprehension (fun artist => get artist "id" (PStr "Unknown ID"))
                           (filter is_dict_with_id l)
             = Val (map PStr ss)).
  { clear Hi. induction l as [|a l IH]; [now exists []|]. cbn [forallb] in Hl.
    apply andb_prop in Hl as [Ha Hl]. destruct (IH Hl) as [ss E].
    destruct a as [| | | | | |ad]; cbn [filter is_dict_with_id];
      try (now exists ss).
    destruct (has_key "id" ad); [|now exists ss].
    cbn [comprehension get exc_bind]. rewrite E. cbn [exc_bind].
    unfold joinable_artist in Ha. apply andb_prop in Ha as [_ Hid].
    destruct (dict_get ad "id" (PStr "Unknown ID")) as [| | | |s| |];
      try discriminate.
    now exists (s :: ss). }
  destruct E as [ss E]. rewrite E. cbn [exc_bind]. unfold join.
  rewrite strings_of_strings. cbn [exc_bind]. now eexists.
Qed.

Lemma album_field_usable album k dflt :
  usable_album album = true -> exists v, album_field album k dflt = Val v.
Proof.
  unfold usable_album, album_field. intros H.
  destruct (truthy album); cbn [negb orb] in H.
  - destruct album; try discriminate. cbn. now eexists.
  - now eexists.
Qed.

(** A record returned by [get_track_data] is the extracted fields with the
    lyrics added. *)
Lemma get_track_data_record_shape P d w r w' :
  get_track_data P (PDict d) w = (Ok (PDict r), w') ->
  exists x v,
    truthy (dict_get d "track" PNone) = true /\
    track_fields (dict_get d "track" PNone) = Val (Some x) /\
    r = dict_set (ex_track_data x) "lyrics" v.
Proof.
  intros H. rewrite get_track_data_dict in H. cbv zeta in H.
  destruct (truthy (dict_get d "track" PNone)) eqn:T; cbn [negb] in H;
    [|discriminate].
  destruct (track_fields (dict_get d "track" PNone)) as [[x|]|e] eqn:Hx;
    try discriminate.
  exists x. destruct (wants_lyrics x) eqn:Wx.
  - destruct (add_lyrics_fetch P x w Wx) as [v [w0 [_ [E _]]]].
    rewrite E in H. injection H as <- _. now exists v.
  - rewrite (add_lyrics_skip P x w Wx) in H. injection H as <- _.
    now exists PNone.
Qed.

(** ** Which entries give a record *)

Lemma comprehension_on_dicts k dflt l :
  comprehension (fun artist => get artist k dflt) (filter is_dict l)
  = Val (map (fun a => match a with
                       | PDict ad => dict_get ad k dflt
                       | _ => PNone
                       end) (filter is_dict l)).
Proof.
  induction l as [|a l IH]; [reflexivity|].
  destruct a as [| | | | | |ad]; cbn [filter is_dict]; try exact IH.
  cbn [comprehension get exc_bind map]. now rewrite IH.
Qed.

Lemma joinable_split l :
  forallb joinable_artist l = forallb named_artist l && forallb tagged_artist l.
Proof.
  induction l as [|a l IH]; [reflexivity|]. cbn [forallb]. rewrite IH.
  destruct a; cbn [joinable_artist named_artist tagged_artist];
    try reflexivity.
  destruct (is_str (dict_get d "name" (PStr "Unknown Artist")));
    destruct (is_str (dict_get d "id" (PStr "Unknown ID")));
    destruct (forallb named_artist l); destruct (forallb tagged_artist l);
    reflexivity.
Qed.

Lemma unnamed_artist_breaks_join artists l :
  iter artists = Val l ->
  forallb named_artist l = false ->
  join_artist_names artists = Exn TypeError.
Proof.
  intros Hi Hl. unfold join_artist_names. rewrite Hi. cbn [exc_bind].
  rewrite comprehension_on_dicts. cbn [exc_bind]. unfold join.
  assert (E : strings_of
                (map (fun a => match a with
                               | PDict ad => dict_get ad "name" (PStr "Unknown Artist")
                               | _ => PNone
                               end) (filter is_dict l)) = Exn TypeError).
  { clear Hi. induction l as [|a l IH]; [discriminate|]. cbn [forallb] in Hl.
    destruct a as [| | | | | |ad]; cbn [filter is_dict named_artist] in *;
      try (apply IH; exact Hl).
    cbn [map strings_of].
    destruct (dict_get ad "name" (PStr "Unknown Artist")); try reflexivity.
    cbn [is_str andb] in Hl. now rewrite (IH Hl). }
  now rewrite E.
Qed.

Lemma untagged_artist_breaks_join artists l :
  iter artists = Val l ->
  forallb tagged_artist l = false ->
  join_artist_ids artists = Exn TypeError.
Proof.
  intros Hi Hl. unfold join_artist_ids. rewrite Hi. cbn [exc_bind].
  assert (E : exc_bind
                (comprehension (fun artist => get artist "id" (PStr "Unknown ID"))
                               (filter is_dict_with_id l))
                (join ", ") = Exn TypeError).
  { clear Hi. induction l as [|a l IH]; [discriminate|]. cbn [forallb] in Hl.
    destruct a as [| | | | | |ad]; cbn [filter is_dict_with_id tagged_artist] in *;
      try (apply IH; exact Hl).
    destruct (has_key "id" ad) eqn:Hk.
    - cbn [comprehension get exc_bind].
      destruct (is_str (dict_get ad "id" (PStr "Unknown ID"))) eqn:Hs.
      + cbn [andb] in Hl. specialize (IH Hl).
        destruct (comprehension (fun artist => get artist "id" (PStr "Unknown ID"))
                                (filter is_dict_with_id l)) as [vs|e];
          cbn [exc_bind] in *; [|exact IH].
        unfold join in *. cbn [strings_of].
        destruct (dict_get ad "id" (PStr "Unknown ID")); try reflexivity.
        destruct (strings_of vs); [discriminate|exact IH].
      + destruct (comprehension (fun artist => get artist "id" (PStr "Unknown ID"))
                                (filter is_dict_with_id l)) as [vs|e] eqn:Hc;
          cbn [exc_bind].
        * unfold join. cbn [strings_of].
          destruct (dict_get ad "id" (PStr "Unknown ID")); try reflexivity.
          discriminate.
        * exfalso. clear -Hc. revert e Hc.
          induction l as [|b l IHl]; intros e Hc; [discriminate|].
          destruct b as [| | | | | |bd]; cbn [filter is_dict_with_id] in Hc;
            try (eapply IHl; exact Hc).
          destruct (has_key "id" bd); [|eapply IHl; exact Hc].
          cbn [comprehension get exc_bind] in Hc.
          destruct (comprehension (fun artist => get artist "id" (PStr "Unknown ID"))
                                  (filter is_dict_with_id l)) eqn:Hc';
            [discriminate|]. eapply IHl. reflexivity.
    - unfold has_key in Hk. unfold dict_get in Hl.
      destruct (lookup "id" ad); [discriminate|]. cbn [is_str andb] in Hl.
      apply IH. exact Hl. }
  exact E.
Qed.

(** An entry gives a record exactly when it has a valid id and a track that
    can be read through. *)
Lemma builds_record_sound v : builds_record v = sound_entry v.
Proof.
  unfold sound_entry, builds_record, has_valid_id, extractable.
  destruct v as [| | | | | |d]; try reflexivity.
  destruct (dict_get d "track" PNone) as [| | | | | |t] eqn:Ht;
    try (unfold track_fields; cbn [get exc_bind andb]; now rewrite andb_false_r).
  - destruct (truthy (PDict t)) eqn:T; [|reflexivity]. cbn [andb].
    destruct (truthy (dict_get t "id" PNone)) eqn:Hid.
    + cbn [andb].
      destruct (iter (dict_get t "artists" (PList []))) as [l|e] eqn:Hi.
      * destruct (forallb joinable_artist l) eqn:Hl.
        -- cbn [andb].
           destruct (usable_album (dict_get t "album" (PDict []))) eqn:Ha.
           ++ destruct (join_artist_ids_joinable _ _ Hi Hl) as [ids Hids].
              destruct (album_field_usable _ "name" (PStr "Unknown Album") Ha)
                as [an Han].
              destruct (album_field_usable _ "release_date" (PStr "Unknown Date") Ha)
                as [ad Had].
              destruct (track_fields_builds t _ ids an ad Hid
                          (join_artist_names_joinable _ _ Hi Hl) Hids Han Had)
                as [x [Hx _]].
              now rewrite Hx.
           ++ unfold track_fields. cbn [get exc_bind]. rewrite Hid. cbn [negb].
              rewrite (join_artist_names_joinable _ _ Hi Hl).
              destruct (join_artist_ids_joinable _ _ Hi Hl) as [ids ->].
              cbn [exc_bind]. unfold usable_album in Ha. unfold album_field.
              destruct (truthy (dict_get t "album" (PDict []))); [|discriminate].
              destruct (dict_get t "album" (PDict [])); try discriminate; reflexivity.
        -- cbn [andb]. rewrite joinable_split in Hl.
           unfold track_fields. cbn [get exc_bind]. rewrite Hid. cbn [negb].
           destruct (forallb named_artist l) eqn:Hn.
           ++ cbn [andb] in Hl.
              destruct (join_artist_names (dict_get t "artists" (PList [])));
                cbn [exc_bind]; [|reflexivity].
              now rewrite (untagged_artist_breaks_join _ _ Hi Hl).
           ++ now rewrite (unnamed_artist_breaks_join _ _ Hi Hn).
      * cbn [andb]. unfold track_fields. cbn [get exc_bind]. rewrite Hid.
        cbn [negb]. unfold join_artist_names. now rewrite Hi.
    + cbn [andb]. unfold track_fields. cbn [get exc_bind]. now rewrite Hid.
Qed.

Lemma sound_entries_counted tracks :
  filter builds_record tracks = filter sound_entry tracks.
Proof.
  apply filter_ext. exact builds_record_sound.
Qed.

Lemma sound_when_valid tracks :
  forallb (fun v => implb (has_valid_id v) (extractable v)) tracks = true ->
  filter sound_entry tracks = filter has_valid_id tracks.
Proof.
  induction tracks as [|v tracks IH]; [reflexivity|]. cbn [forallb filter].
  intros H. apply andb_prop in H as [Hv Ht]. rewrite (IH Ht).
  unfold sound_entry. destruct (has_valid_id v); [|reflexivity].
  cbn in Hv. now rewrite Hv.
Qed.

Lemma album_field_text t k dflt v :
  album_field (dict_get t "album" (PDict [])) k dflt = Val v ->
  v = album_text t k dflt.
Proof.
  unfold album_field, album_text, dict_get.
  destruct (lookup "album" t) as [album|]; [|cbn; now intros [= <-]].
  destruct (truthy album) eqn:T.
  - destruct album; try discriminate. cbn [get]. unfold dict_get.
    now intros [= <-].
  - intros [= <-]. destruct album as [| | | | | |a]; try reflexivity.
    destruct a; [reflexivity|discriminate].
Qed.

Lemma comprehension_ids l :
  forallb joinable_artist l = true ->
  comprehension (fun artist => get artist "id" (PStr "Unknown ID"))
                (filter is_dict_with_id l)
  = Val (map (fun a => PStr (artist_id_text a)) (filter is_dict_with_id l)).
Proof.
  induction l as [|a l IH]; [reflexivity|]. cbn [forallb]. intros H.
  apply andb_prop in H as [Ha Hl]. specialize (IH Hl).
  destruct a as [| | | | | |ad]; cbn [filter is_dict_with_id]; try exact IH.
  destruct (has_key "id" ad) eqn:Hk; [|exact IH].
  cbn [comprehension get exc_bind map]. rewrite IH. cbn [exc_bind].
  unfold joinable_artist in Ha. apply andb_prop in Ha as [_ Hid].
  unfold artist_id_text. unfold has_key in Hk. unfold dict_get in *.
  destruct (lookup "id" ad) as [v|]; [|discriminate].
  destruct v; try discriminate. reflexivity.
Qed.

Lemma join_artist_ids_texts artists l :
  iter artists = Val l ->
  forallb joinable_artist l = true ->
  join_artist_ids artists
  = Val (String.concat ", " (map artist_id_text (filter is_dict_with_id l))).
Proof.
  intros Hi Hl. unfold join_artist_ids. rewrite Hi. cbn [exc_bind].
  rewrite (comprehension_ids l Hl). cbn [exc_bind]. unfold join.
  now rewrite strings_of_texts.
Qed.

(** A record that is returned is the expected fields of its track, with
    a lyrics field at the end. *)
Lemma record_is_expected P d w r w' :
  get_track_data P (PDict d) w = (Ok (PDict r), w') ->
  exists t l v,
    dict_get d "track" PNone = PDict t /\
    iter (dict_get t "artists" (PList [])) = Val l /\
    forallb joinable_artist l = true /\
    r = expected_fields t ++ [("lyrics", v)].
Proof.
  intros H.
  destruct (get_track_data_record_shape _ _ _ _ _ H) as [x [v [T [Hx ->]]]].
  destruct (track_fields_some _ _ Hx)
    as [t [ids [an [ad [Ht [Hid [Hn [Hi [_ [Han [Had Hdata]]]]]]]]]]].
  assert (B : builds_record (PDict d) = true).
  { unfold builds_record. now rewrite T, Hx. }
  rewrite builds_record_sound in B. unfold sound_entry in B.
  apply andb_prop in B as [_ X].
  unfold extractable in X. rewrite Ht in X. apply andb_prop in X as [X _].
  destruct (iter (dict_get t "artists" (PList []))) as [l|e] eqn:Hl;
    [|discriminate].
  rewrite (join_artist_names_joinable _ _ Hl X) in Hn.
  rewrite (join_artist_ids_texts _ _ Hl X) in Hi.
  exists t, l, v. split; [exact Ht|]. split; [exact Hl|]. split; [exact X|].
  rewrite Hdata. unfold expected_fields. rewrite Hl.
  injection Hn as <-. injection Hi as <-.
  rewrite (album_field_text _ _ _ _ Han), (album_field_text _ _ _ _ Had).
  reflexivity.
Qed.

(** * The claims *)

(** C1 (amended).  An entry without a track payload, or whose track has no
    id, gives null and the loop appends nothing for it.  Over a playlist of
    record entries the loop ends, and the frame [collect_playlist_data]
    builds has one row per entry that has a valid id and a track that can be
    read through: as many rows as entries with valid ids when each of these
    can be read through, never more than that, and never more than there
    are entries. *)
Theorem dataset_counts_built_records P fuel playlist_id output_file w tracks w1 :
  get_playlist_tracks P fuel playlist_id (announced playlist_id w) = (Ok tracks, w1) ->
  Forall (fun v => is_dict v = true) tracks ->
  (forall d w0,
      lacks_track d || lacks_id d = true ->
      get_track_data P (PDict d) w0 = (Ok PNone, w0) /\
      forall i rest acc,
        enrich_from P i (PDict d :: rest) acc w0
        = enrich_from P (S i) rest acc (after_throttle i w0)) /\
  exists rows w2,
    enrich_from P 0 tracks [] (counted tracks w1) = (Ok rows, w2) /\
    collect_playlist_data P fuel playlist_id output_file w = save rows output_file w2 /\
    (forall df w3,
        collect_playlist_data P fuel playlist_id output_file w = (Ok df, w3) ->
        df = DataFrame rows) /\
    row_count (DataFrame rows)
      = length (filter (fun v => has_valid_id v && extractable v) tracks) /\
    (forallb (fun v => implb (has_valid_id v) (extractable v)) tracks = true ->
     row_count (DataFrame rows) = length (filter has_valid_id tracks)) /\
    row_count (DataFrame rows) <= length (filter has_valid_id tracks) /\
    length (filter has_valid_id tracks) <= length tracks.
Proof.
  intros Hwalk Hd. split.
  - intros d w0 H. destruct (get_track_data_lacking P d w0 H) as [E _].
    split; [exact E|]. intros i rest acc.
    exact (enrich_from_step P i (PDict d) rest acc w0 _ _ E).
  - destruct (enrich_from_dicts P tracks Hd 0 [] (counted tracks w1))
      as [rows [w2 [E [L _]]]].
    cbn [app] in E. exists rows, w2.
    pose proof (collect_saves _ _ _ output_file _ _ _ _ _ Hwalk E) as Hc.
    assert (Hrows : row_count (DataFrame rows) = length (filter sound_entry tracks)).
    { unfold row_count. cbn [DataFrame df_rows].
      now rewrite L, sound_entries_counted. }
    split; [exact E|]. split; [exact Hc|].
    split; [|split; [exact Hrows|split; [|split]]].
    + intros df w3 H. rewrite Hc in H.
      destruct (save_extends _ _ _ _ _ H) as [_ Hdf]. now apply Hdf.
    + intros Hall. now rewrite Hrows, (sound_when_valid tracks Hall).
    + rewrite Hrows. apply filter_length_mono. intros v Hv.
      unfold sound_entry in Hv. now apply andb_prop in Hv as [Hv _].
    + apply filter_length_all.
Qed.

Lemma dataset_counts_demo_records :
  exists rows w2,
    enrich_from Demo.client 0 Demo.playlist25 []
                (counted Demo.playlist25 (Demo.walked "twenty-five")) = (Ok rows, w2) /\
    collect_playlist_data Demo.client 0 "twenty-five" "data/tracks.csv" Demo.fresh
      = save rows "data/tracks.csv" w2 /\
    row_count (DataFrame rows) = length (filter has_valid_id Demo.playlist25) /\
    length (filter has_valid_id Demo.playlist25) = 24 /\
    length Demo.playlist25 = 25.
Proof.
  destruct (dataset_counts_built_records
              Demo.client 0 "twenty-five" "data/tracks.csv" Demo.fresh
              Demo.playlist25 (Demo.walked "twenty-five") eq_refl
              ltac:(repeat constructor))
    as [_ [rows [w2 [E [Hc [_ [_ [Heq _]]]]]]]].
  exists rows, w2. split; [exact E|]. split; [exact Hc|].
  split; [apply Heq; reflexivity|]. split; reflexivity.
Defined.

(** An entry with a valid id whose artist list is null is dropped: the
    frame has no row although one entry has a valid id. *)
Lemma valid_id_entry_dropped :
  exists df w',
    get_playlist_tracks Demo.client 0 "null-artists" (announced "null-artists" Demo.fresh)
      = (Ok [Demo.null_artists], Demo.walked "null-artists") /\
    collect_playlist_data Demo.client 0 "null-artists" "data/tracks.csv" Demo.fresh
      = (Ok df, w') /\
    row_count df = 0 /\
    length (filter has_valid_id [Demo.null_artists]) = 1.
Proof.
  eexists. eexists. split; [reflexivity|]. split; [vm_compute; reflexivity|].
  split; reflexivity.
Qed.

(** C2.  When the provider answers the first request with [first] and the
    following requests with [rest], the last page having no next pointer,
    [get_playlist_tracks] returns, with fuel for [length rest] requests, the
    items of all pages concatenated in arrival order, having asked for each
    next page once. *)
Theorem get_playlist_tracks_concatenates_pages P fuel playlist_id w first rest :
  sp_playlist_tracks P (history w) playlist_id = Val first ->
  serves P (history w ++ [EvPlaylistTracks playlist_id]) first rest ->
  length rest <= fuel ->
  get_playlist_tracks P fuel playlist_id w =
  (Ok (concat (map items (first :: rest))),
   {| history := history w ++ EvPlaylistTracks playlist_id :: followed first rest;
      disk := disk w |}).
Proof.
  intros Hfirst Hrest Hfuel. unfold get_playlist_tracks.
  assert (E : call (EvPlaylistTracks playlist_id)
                   (fun h => sp_playlist_tracks P h playlist_id) w
              = (Ok first, record_event (EvPlaylistTracks playlist_id) w)).
  { unfold call. now rewrite Hfirst. }
  rewrite (bind_ok _ _ _ _ _ E).
  rewrite (follow_next_serves P _ first rest Hrest fuel (items first)
             (record_event (EvPlaylistTracks playlist_id) w) eq_refl Hfuel).
  cbn. now rewrite <- app_assoc.
Qed.

(** The pages [[a, b], [c]] give [a, b, c]. *)
Lemma get_playlist_tracks_two_pages :
  get_playlist_tracks Demo.client 1 "two-pages" Demo.fresh =
  (Ok [Demo.good; Demo.other; Demo.third],
   {| history := [EvPlaylistTracks "two-pages"; EvNext Demo.page_ab];
      disk := disk Demo.fresh |}).
Proof.
  apply (get_playlist_tracks_concatenates_pages
           Demo.client 1 "two-pages" Demo.fresh Demo.page_ab [Demo.page_c]).
  - reflexivity.
  - apply serves_more with (q := Demo.page_c); [reflexivity|reflexivity|].
    apply serves_last. reflexivity.
  - simpl. lia.
Defined.

(** C3.  One turn of the loop pauses exactly when its index is a positive
    multiple of 20.  Over a playlist of record entries the whole run
    announces and takes one two-second pause per such index below the entry
    count, in order, and none besides; with 25 entries of which entry 10 has
    a null track payload and the others each have a valid id and a track
    that can be read through, the frame has 24 rows and the one pause is at
    index 20. *)
Theorem throttle_every_twentieth_entry P fuel playlist_id output_file w tracks w1 :
  get_playlist_tracks P fuel playlist_id (announced playlist_id w) = (Ok tracks, w1) ->
  Forall (fun v => is_dict v = true) tracks ->
  let due := filter (fun i => Nat.eqb (i mod 20) 0 && Nat.ltb 0 i)
                    (seq 0 (length tracks)) in
  let w3 := snd (collect_playlist_data P fuel playlist_id output_file w) in
  (forall i w0,
      throttle i w0 = (Ok tt, after_throttle i w0) /\
      sleeps (history (after_throttle i w0))
      = sleeps (history w0) ++
        (if Nat.eqb (i mod 20) 0 && Nat.ltb 0 i then [2%Z] else [])) /\
  progress_marks (history w3) = progress_marks (history w) ++ due /\
  sleeps (history w3) = sleeps (history w) ++ map (fun _ => 2%Z) due /\
  exists rows w2,
    enrich_from P 0 tracks [] (counted tracks w1) = (Ok rows, w2) /\
    collect_playlist_data P fuel playlist_id output_file w = save rows output_file w2 /\
    (forall pre d post,
        tracks = pre ++ PDict d :: post ->
        length pre = 10 ->
        length post = 14 ->
        dict_get d "track" PNone = PNone ->
        forallb (fun v => has_valid_id v && extractable v) (pre ++ post) = true ->
        row_count (DataFrame rows) = 24 /\ due = [20]).
Proof.
  intros Hwalk Hd due w3. split; [|].
  { intros i w0. split; [apply throttle_eq|apply after_throttle_sleeps]. }
  destruct (enrich_from_dicts P tracks Hd 0 [] (counted tracks w1))
    as [rows [w2 [E [L [_ [Mk Sl]]]]]].
  cbn [app] in E.
  pose proof (collect_saves _ _ _ output_file _ _ _ _ _ Hwalk E) as Hc.
  assert (Hw1 : extends silent w (counted tracks w1)).
  { apply extends_trans with (announced playlist_id w);
      [apply extends_event; reflexivity|].
    apply extends_trans with w1;
      [exact (proj2 (get_playlist_tracks_grows _ _ _ _ _ _ Hwalk))|].
    apply extends_event. reflexivity. }
  rewrite (silent_keeps_marks _ _ Hw1) in Mk.
  rewrite (silent_keeps_sleeps _ _ Hw1) in Sl.
  assert (Hw3 : extends silent w2 w3).
  { subst w3. rewrite Hc.
    destruct (save rows output_file w2) as [r w'] eqn:Hs.
    exact (proj1 (save_extends _ _ _ _ _ Hs)). }
  split; [|split].
  - rewrite (silent_keeps_marks _ _ Hw3). exact Mk.
  - rewrite (silent_keeps_sleeps _ _ Hw3). exact Sl.
  - exists rows, w2. split; [exact E|]. split; [exact Hc|].
    intros pre d post -> Hpre Hpost Hnull Hall.
    rewrite forallb_app in Hall. apply andb_prop in Hall as [Hp Hq].
    split.
    + unfold row_count. cbn [DataFrame df_rows]. rewrite L.
      rewrite sound_entries_counted, filter_app. cbn [filter].
      assert (B : sound_entry (PDict d) = false).
      { unfold sound_entry, has_valid_id. now rewrite Hnull. }
      rewrite B, length_app, (filter_all sound_entry pre Hp),
        (filter_all sound_entry post Hq). lia.
    + subst due. rewrite length_app. cbn [length]. rewrite Hpre, Hpost.
      reflexivity.
Qed.

Lemma throttle_twenty_five_entries :
  let due := filter (fun i => Nat.eqb (i mod 20) 0 && Nat.ltb 0 i)
                    (seq 0 (length Demo.playlist25)) in
  let w3 := snd (collect_playlist_data Demo.client 0 "twenty-five" "data/tracks.csv"
                                       Demo.fresh) in
  length Demo.playlist25 = 25 /\
  nth_error Demo.playlist25 10 = Some Demo.removed /\
  progress_marks (history w3) = progress_marks (history Demo.fresh) ++ due /\
  sleeps (history w3) = sleeps (history Demo.fresh) ++ map (fun _ => 2%Z) due /\
  exists rows w2,
    enrich_from Demo.client 0 Demo.playlist25 []
                (counted Demo.playlist25 (Demo.walked "twenty-five")) = (Ok rows, w2) /\
    collect_playlist_data Demo.client 0 "twenty-five" "data/tracks.csv" Demo.fresh
      = save rows "data/tracks.csv" w2 /\
    row_count (DataFrame rows) = 24 /\
    due = [20].
Proof.
  destruct (throttle_every_twentieth_entry
              Demo.client 0 "twenty-five" "data/tracks.csv" Demo.fresh
              Demo.playlist25 (Demo.walked "twenty-five") eq_refl
              ltac:(repeat constructor))
    as [_ [Mk [Sl [rows [w2 [E [Hc H25]]]]]]].
  split; [reflexivity|]. split; [reflexivity|]. split; [exact Mk|].
  split; [exact Sl|]. exists rows, w2. split; [exact E|]. split; [exact Hc|].
  apply (H25 (repeat Demo.good 10)
             [("added_at", PStr "2024-02-01T10:00:00Z"); ("track", PNone)]
             (repeat Demo.good 14)); reflexivity.
Defined.

(** A whole run evaluated: 25 entries, entry 10 without a track. *)
Example twenty_five_entries_end_to_end :
  exists df w3,
    collect_playlist_data Demo.client 0 "twenty-five" "data/tracks.csv" Demo.fresh
      = (Ok df, w3) /\
    length Demo.playlist25 = 25 /\
    nth_error Demo.playlist25 10 = Some Demo.removed /\
    row_count df = 24 /\
    sleeps (history w3) = [2%Z] /\
    progress_marks (history w3) = [20].
Proof.
  eexists. eexists. split; [vm_compute; reflexivity|].
  repeat split; vm_compute; reflexivity.
Qed.

(** C4.  When the extraction of an entry's track raises, [get_track_data]
    catches the exception, prints the error line and returns null for that
    entry; the loop appends nothing, goes on with the next entry, and over
    the remaining record entries runs to its end. *)
Theorem extraction_error_skips_entry P d e w w1 i rest acc :
  truthy (dict_get d "track" PNone) = true ->
  extract P (dict_get d "track" PNone) w = (Raise e, w1) ->
  Forall (fun v => is_dict v = true) rest ->
  get_track_data P (PDict d) w
    = (Ok PNone, record_event (EvPrint (LogTrackError e)) w1) /\
  enrich_from P i (PDict d :: rest) acc w
    = enrich_from P (S i) rest acc
        (after_throttle i (record_event (EvPrint (LogTrackError e)) w1)) /\
  exists rows w',
    enrich_from P i (PDict d :: rest) acc w = (Ok (acc ++ rows), w') /\
    length rows = length (filter builds_record rest).
Proof.
  intros Ht He Hrest.
  assert (E : get_track_data P (PDict d) w
              = (Ok PNone, record_event (EvPrint (LogTrackError e)) w1)).
  { unfold get_track_data. cbn [get]. unfold bind at 1. cbn [lift].
    rewrite Ht. cbn [negb]. unfold try_except. rewrite He. reflexivity. }
  split; [exact E|].
  pose proof (enrich_from_step P i (PDict d) rest acc w _ _ E) as Hstep.
  cbn [truthy] in Hstep. split; [exact Hstep|].
  rewrite Hstep.
  destruct (enrich_from_dicts P rest Hrest (S i) acc
              (after_throttle i (record_event (EvPrint (LogTrackError e)) w1)))
    as [rows [w' [E' [L _]]]].
  now exists rows, w'.
Qed.

Lemma null_artist_list_is_skipped_in_loop :
  get_track_data Demo.client Demo.null_artists Demo.fresh
    = (Ok PNone, record_event (EvPrint (LogTrackError TypeError)) Demo.fresh) /\
  enrich_from Demo.client 0 [Demo.null_artists; Demo.good] [] Demo.fresh
    = enrich_from Demo.client 1 [Demo.good] []
        (after_throttle 0 (record_event (EvPrint (LogTrackError TypeError)) Demo.fresh)) /\
  exists rows w',
    enrich_from Demo.client 0 [Demo.null_artists; Demo.good] [] Demo.fresh
      = (Ok ([] ++ rows), w') /\
    length rows = length (filter builds_record [Demo.good]).
Proof.
  apply (extraction_error_skips_entry Demo.client
           [("added_at", PStr "2024-02-01T10:00:00Z");
            ("track", PDict [("id", PStr "t7"); ("name", PStr "Blue");
                             ("artists", PNone)])]
           TypeError Demo.fresh Demo.fresh 0 [Demo.good] []).
  - reflexivity.
  - reflexivity.
  - repeat constructor.
Defined.

(** On a record entry [get_track_data] always returns, and what it
    searched can be read off its result. *)
Lemma lyrics_gate_on_result P d w :
  exists v w',
    get_track_data P (PDict d) w = (Ok v, w') /\
    match v with
    | PDict r =>
        let names := dict_get r "artist_names" PNone in
        let name := dict_get r "name" PNone in
        if truthy names && ne_str name "Unknown Track"
        then searches (history w') = searches (history w) ++ [(name, names)] /\
             get_lyrics P names name w = (Ok (dict_get r "lyrics" PNone), w')
        else w' = w /\ lookup "lyrics" r = Some PNone
    | _ => searches (history w') = searches (history w)
    end.
Proof.
  destruct (builds_record (PDict d)) eqn:B.
  - unfold builds_record in B. apply andb_prop in B as [T F].
    destruct (track_fields (dict_get d "track" PNone)) as [[x|]|e] eqn:Hx;
      try discriminate.
    destruct (track_fields_some _ _ Hx)
      as [t [ids [an [ad [_ [_ [_ [_ [Hname [_ [_ Hdata]]]]]]]]]]].
    rewrite get_track_data_dict. cbv zeta. rewrite T, Hx. cbn [negb].
    destruct (wants_lyrics x) eqn:Wx.
    + destruct (add_lyrics_fetch P x w Wx) as [v [w' [E1 [E2 [_ S]]]]].
      eexists. exists w'. split; [exact E2|].
      rewrite Hdata. cbn [dict_set dict_get lookup String.eqb Ascii.eqb Bool.eqb].
      rewrite <- Hname. fold (wants_lyrics x). rewrite Wx. split; assumption.
    + eexists. exists w. split; [exact (add_lyrics_skip P x w Wx)|].
      rewrite Hdata. cbn [dict_set dict_get lookup String.eqb Ascii.eqb Bool.eqb].
      rewrite <- Hname. fold (wants_lyrics x). rewrite Wx. split; reflexivity.
  - destruct (get_track_data_null P d w B) as [w' [E [_ S]]].
    exists PNone, w'. split; assumption.
Qed.

(** C5.  For an entry with a valid id and a track that can be read through,
    [get_track_data] returns a record with the track's name and the joined
    names of its artists.  If the joined names are not empty and the name is
    not "Unknown Track" it has searched for lyrics exactly once, with that
    name and those names, and the record's lyrics are what the provider
    found (null when it found nothing or raised); otherwise the world is as
    before (no search) and the lyrics are null.  On any record entry the
    same can be read off the result, and a null result means no search. *)
Theorem lyrics_fetched_only_when_searchable P d t l w :
  dict_get d "track" PNone = PDict t ->
  truthy (dict_get t "id" PNone) = true ->
  usable_album (dict_get t "album" (PDict [])) = true ->
  iter (dict_get t "artists" (PList [])) = Val l ->
  forallb joinable_artist l = true ->
  let names := String.concat ", " (map artist_name_text (filter is_dict l)) in
  let name := match lookup "name" t with
              | Some v => v
              | None => PStr "Unknown Track"
              end in
  (exists r w',
      get_track_data P (PDict d) w = (Ok (PDict r), w') /\
      lookup "name" r = Some name /\
      lookup "artist_names" r = Some (PStr names) /\
      if negb (String.eqb names "") && ne_str name "Unknown Track"
      then searches (history w') = searches (history w) ++ [(name, PStr names)] /\
           lookup "lyrics" r
           = Some (match genius_search_song P (history w) name (PStr names) with
                   | Val (Some found) => lyrics found
                   | _ => PNone
                   end)
      else w' = w /\ lookup "lyrics" r = Some PNone) /\
  (forall d0 w0,
      exists v w',
        get_track_data P (PDict d0) w0 = (Ok v, w') /\
        match v with
        | PDict r =>
            let names := dict_get r "artist_names" PNone in
            let name := dict_get r "name" PNone in
            if truthy names && ne_str name "Unknown Track"
            then searches (history w') = searches (history w0) ++ [(name, names)] /\
                 get_lyrics P names name w0 = (Ok (dict_get r "lyrics" PNone), w')
            else w' = w0 /\ lookup "lyrics" r = Some PNone
        | _ => searches (history w') = searches (history w0)
        end).
Proof.
  intros Ht Hid Halbum Hiter Hl names name.
  split; [|intros d0 w0; apply lyrics_gate_on_result].
  destruct (join_artist_ids_joinable _ _ Hiter Hl) as [ids Hids].
  destruct (album_field_usable _ "name" (PStr "Unknown Album") Halbum) as [an Han].
  destruct (album_field_usable _ "release_date" (PStr "Unknown Date") Halbum)
    as [ad Had].
  destruct (track_fields_builds t _ ids an ad Hid
              (join_artist_names_joinable _ _ Hiter Hl) Hids Han Had)
    as [x [Hx Hnames]].
  fold names in Hnames.
  destruct (track_fields_some _ _ Hx)
    as [t0 [ids0 [an0 [ad0 [Ht0 [_ [_ [_ [Hname [_ [_ Hdata]]]]]]]]]]].
  injection Ht0 as <-.
  assert (Hname' : ex_track_name x = name) by exact Hname.
  assert (T : truthy (PDict t) = true) by (destruct t; [discriminate Hid|reflexivity]).
  assert (E : get_track_data P (PDict d) w = add_lyrics P x w).
  { rewrite get_track_data_dict. cbv zeta. now rewrite Ht, T, Hx. }
  assert (W : wants_lyrics x
              = negb (String.eqb names "") && ne_str name "Unknown Track").
  { unfold wants_lyrics. now rewrite Hnames, Hname'. }
  rewrite <- W. destruct (wants_lyrics x) eqn:Wx.
  - destruct (add_lyrics_fetch P x w Wx) as [v [w' [G [A [_ S]]]]].
    exists (dict_set (ex_track_data x) "lyrics" v), w'.
    rewrite E. split; [exact A|]. rewrite Hdata, Hnames.
    cbn [dict_set lookup String.eqb Ascii.eqb Bool.eqb].
    split; [reflexivity|]. split; [reflexivity|].
    rewrite Hnames, Hname' in S, G. split; [exact S|].
    rewrite get_lyrics_eq in G. cbv zeta in G.
    destruct (genius_search_song P (history w) name (PStr names)) as [[found|]|e];
      injection G as <- _; reflexivity.
  - exists (dict_set (ex_track_data x) "lyrics" PNone), w.
    rewrite E. split; [exact (add_lyrics_skip P x w Wx)|]. rewrite Hdata, Hnames.
    cbn [dict_set lookup String.eqb Ascii.eqb Bool.eqb].
    repeat split; reflexivity.
Qed.

Lemma lyrics_fetched_for_named_track :
  (exists r w',
      get_track_data Demo.client Demo.good Demo.fresh = (Ok (PDict r), w') /\
      lookup "name" r = Some (PStr "Blue") /\
      lookup "artist_names" r = Some (PStr "Ann, Bob") /\
      searches (history w') = searches (history Demo.fresh)
                              ++ [(PStr "Blue", PStr "Ann, Bob")] /\
      lookup "lyrics" r = Some (PStr "la la la")) /\
  (forall d0 w0,
      exists v w',
        get_track_data Demo.client (PDict d0) w0 = (Ok v, w') /\
        match v with
        | PDict r =>
            let names := dict_get r "artist_names" PNone in
            let name := dict_get r "name" PNone in
            if truthy names && ne_str name "Unknown Track"
            then searches (history w') = searches (history w0) ++ [(name, names)] /\
                 get_lyrics Demo.client names name w0
                 = (Ok (dict_get r "lyrics" PNone), w')
            else w' = w0 /\ lookup "lyrics" r = Some PNone
        | _ => searches (history w') = searches (history w0)
        end).
Proof.
  exact (lyrics_fetched_only_when_searchable Demo.client
           [("added_at", PStr "2024-02-01T10:00:00Z");
            ("track", Demo.track "t1" "Blue"
                        (PList [Demo.artist "Ann" "a1"; Demo.artist "Bob" "b1"]))]
           [("id", PStr "t1");
            ("name", PStr "Blue");
            ("popularity", PInt 57);
            ("explicit", PBool false);
            ("duration_ms", PInt 201000);
            ("album", PDict [("name", PStr "First Light");
                             ("release_date", PStr "2019-05-03")]);
            ("artists", PList [Demo.artist "Ann" "a1"; Demo.artist "Bob" "b1"])]
           [Demo.artist "Ann" "a1"; Demo.artist "Bob" "b1"] Demo.fresh
           eq_refl eq_refl eq_refl eq_refl eq_refl).
Defined.

(** One search for a named track with artists; none without an artist
    list, and none for a track whose name is missing. *)
Example lyrics_gate_examples :
  searches (history (snd (get_track_data Demo.client Demo.good Demo.fresh)))
    = [(PStr "Blue", PStr "Ann, Bob")] /\
  searches (history (snd (get_track_data Demo.client Demo.bare Demo.fresh))) = [] /\
  searches (history (snd (get_track_data Demo.client
                            (Demo.entry (PDict [("id", PStr "t4");
                                                ("artists", PList [Demo.artist "Ann" "a1"])]))
                            Demo.fresh))) = [] /\
  searches (history (snd (get_track_data Demo.client Demo.removed Demo.fresh))) = [].
Proof.
  repeat split; reflexivity.
Qed.

(** C6 (amended).  A record returned by [get_track_data] holds the eight
    base fields.  Name, popularity, explicit flag and duration are the
    source's values where the track has the key, and the defaults
    "Unknown Track", 0, false and 0 where it has not; the two album fields
    are the album's values where the album is a dict with the key, and
    "Unknown Album" and "Unknown Date" where the album is missing, empty or
    lacks the key; the joined artist names are the names of the dicts among
    the track's artists and the joined artist ids the ids of those that
    have one, joined with ", ", both the empty string where the track has no
    artist list.  So one of the first four is null only where the track
    holds an explicit null under that key. *)
Theorem base_fields_default_absent_keys P d w r w' :
  get_track_data P (PDict d) w = (Ok (PDict r), w') ->
  exists t,
    dict_get d "track" PNone = PDict t /\
    holds_base_fields t r /\
    (forall k,
        In k ["name"; "popularity"; "explicit"; "duration_ms"] ->
        lookup k r = Some PNone ->
        lookup k t = Some PNone).
Proof.
  intros H.
  destruct (record_is_expected _ _ _ _ _ H) as [t [l [v [Ht [Hl [_ ->]]]]]].
  exists t. split; [exact Ht|]. split.
  - exists l. split; [exact Hl|]. unfold expected_fields. rewrite Hl.
    cbn [app lookup String.eqb Ascii.eqb Bool.eqb]. unfold dict_get.
    repeat (split; [reflexivity|]).
    intros Habs. unfold dict_get in Hl. rewrite Habs in Hl.
    cbn [iter] in Hl. injection Hl as <-. split; reflexivity.
  - intros k Hk. cbn [In] in Hk. unfold expected_fields, dict_get.
    destruct Hk as [<-|[<-|[<-|[<-|[]]]]];
      cbn [app lookup String.eqb Ascii.eqb Bool.eqb]; intros [= E];
      match type of E with
      | match ?o with _ => _ end = _ => destruct o; [now subst|discriminate]
      end.
Qed.

Lemma base_fields_of_bare_track :
  exists t,
    dict_get [("added_at", PStr "2024-02-01T10:00:00Z");
              ("track", PDict [("id", PStr "t9"); ("album", PDict [("name", PStr "Solo")])])]
             "track" PNone = PDict t /\
    holds_base_fields t
      [("id", PStr "t9");
       ("name", PStr "Unknown Track");
       ("popularity", PInt 0);
       ("explicit", PBool false);
       ("duration_ms", PInt 0);
       ("album_name", PStr "Solo");
       ("album_release_date", PStr "Unknown Date");
       ("artist_names", PStr "");
       ("artist_ids", PStr "");
       ("lyrics", PNone)] /\
    (forall k,
        In k ["name"; "popularity"; "explicit"; "duration_ms"] ->
        lookup k [("id", PStr "t9");
                  ("name", PStr "Unknown Track");
                  ("popularity", PInt 0);
                  ("explicit", PBool false);
                  ("duration_ms", PInt 0);
                  ("album_name", PStr "Solo");
                  ("album_release_date", PStr "Unknown Date");
                  ("artist_names", PStr "");
                  ("artist_ids", PStr "");
                  ("lyrics", PNone)] = Some PNone ->
        lookup k t = Some PNone).
Proof.
  apply (base_fields_default_absent_keys Demo.client _ Demo.fresh _ Demo.fresh).
  reflexivity.
Defined.

(** A track whose popularity is an explicit null yields a record whose
    popularity is null, not the default 0. *)
Lemma null_popularity_passes_through :
  exists r w',
    get_track_data Demo.client Demo.null_popularity Demo.fresh = (Ok (PDict r), w') /\
    lookup "popularity" r = Some PNone.
Proof.
  eexists. eexists. split; reflexivity.
Qed.

(** C7.  [get_lyrics] returns the lyric text of the song the provider's
    search found, null when the search found nothing, and null (after an
    error line) when the provider raised; whatever the artist and title, and
    whatever the provider does, it returns and never raises. *)
Theorem get_lyrics_never_raises P artist_name track_name w :
  get_lyrics P artist_name track_name w =
    (match genius_search_song P (history w) track_name artist_name with
     | Val (Some s) =>
         (Ok (lyrics s), record_event (EvSearchSong track_name artist_name) w)
     | Val None =>
         (Ok PNone, record_event (EvSearchSong track_name artist_name) w)
     | Exn e =>
         (Ok PNone,
          record_event (EvPrint (LogLyricsError track_name artist_name e))
                       (record_event (EvSearchSong track_name artist_name) w))
     end) /\
  exists v w', get_lyrics P artist_name track_name w = (Ok v, w').
Proof.
  split.
  - apply get_lyrics_eq.
  - destruct (get_lyrics_ok P artist_name track_name w) as [v [w' [E _]]].
    now exists v, w'.
Qed.

(** A hit, no match, and a provider error; and three entries of which the
    second's search fails: its lyrics are null, its neighbours keep theirs. *)
Example get_lyrics_examples :
  fst (get_lyrics Demo.client (PStr "Ann") (PStr "Blue") Demo.fresh)
    = Ok (PStr "la la la") /\
  fst (get_lyrics Demo.client (PStr "Cy") (PStr "Nobody") Demo.fresh) = Ok PNone /\
  get_lyrics Demo.client (PStr "Di") (PStr "Broken") Demo.fresh
    = (Ok PNone,
       {| history := [EvSearchSong (PStr "Broken") (PStr "Di");
                      EvPrint (LogLyricsError (PStr "Broken") (PStr "Di")
                                              (ProviderError "timeout"))];
          disk := disk Demo.fresh |}) /\
  match fst (enrich_from Demo.client 0 [Demo.good; Demo.third; Demo.good] [] Demo.fresh) with
  | Ok rows => map (fun r => match r with
                             | PDict fields => dict_get fields "lyrics" (PStr "?")
                             | _ => PStr "?"
                             end) rows
               = [PStr "la la la"; PNone; PStr "la la la"]
  | _ => False
  end.
Proof.
  repeat split; reflexivity.
Qed.

(** C8 (amended).  For a track with an id and a missing, empty or dict
    album, whose artist value can be iterated (a list, and so the empty
    default of a missing key) and whose dict entries carry strings for name
    and id where they carry them: [get_track_data] returns a record whose
    artist names are the names of the dict entries, "Unknown Artist" for a
    dict without one, joined with ", " in order; it is the empty string when
    no entry is a dict.  And whatever a record entry holds, [get_track_data]
    returns without raising. *)
Theorem artist_names_joined_from_dict_entries P d t l w :
  dict_get d "track" PNone = PDict t ->
  truthy (dict_get t "id" PNone) = true ->
  usable_album (dict_get t "album" (PDict [])) = true ->
  iter (dict_get t "artists" (PList [])) = Val l ->
  forallb joinable_artist l = true ->
  (exists r w',
      get_track_data P (PDict d) w = (Ok (PDict r), w') /\
      lookup "artist_names" r
        = Some (PStr (String.concat ", " (map artist_name_text (filter is_dict l)))) /\
      (filter is_dict l = [] -> lookup "artist_names" r = Some (PStr ""))) /\
  (lookup "artists" t = None -> l = []) /\
  (forall d0 w0, exists v w', get_track_data P (PDict d0) w0 = (Ok v, w')).
Proof.
  intros Ht Hid Halbum Hiter Hl. split; [|split].
  - destruct (join_artist_ids_joinable _ _ Hiter Hl) as [ids Hids].
    destruct (album_field_usable _ "name" (PStr "Unknown Album") Halbum) as [an Han].
    destruct (album_field_usable _ "release_date" (PStr "Unknown Date") Halbum)
      as [ad Had].
    destruct (track_fields_builds t _ ids an ad Hid
                (join_artist_names_joinable _ _ Hiter Hl) Hids Han Had)
      as [x [Hx Hnames]].
    assert (B : builds_record (PDict d) = true).
    { unfold builds_record. rewrite Ht, Hx.
      destruct t; [discriminate Hid|reflexivity]. }
    destruct (get_track_data_record P d w B) as [r [w' [E _]]].
    exists r, w'. split; [exact E|].
    destruct (get_track_data_record_shape _ _ _ _ _ E) as [x0 [v [_ [Hx0 ->]]]].
    rewrite Ht, Hx in Hx0. injection Hx0 as <-.
    destruct (track_fields_some _ _ Hx)
      as [t0 [ids0 [an0 [ad0 [_ [_ [_ [_ [_ [_ [_ Hdata]]]]]]]]]]].
    rewrite Hdata, Hnames. cbn [dict_set lookup String.eqb Ascii.eqb Bool.eqb].
    split; [reflexivity|]. intros Hf. now rewrite Hf.
  - intros Habs. unfold dict_get in Hiter. rewrite Habs in Hiter.
    now injection Hiter as <-.
  - intros d0 w0. destruct (get_track_data_total P d0 w0) as [v [w' [E _]]].
    now exists v, w'.
Qed.

(** A track without an artist list: the record is built, its artist names
    empty. *)
Lemma artist_names_of_bare_track :
  (exists r w',
      get_track_data Demo.client Demo.bare Demo.fresh = (Ok (PDict r), w') /\
      lookup "artist_names" r
        = Some (PStr (String.concat ", " (map artist_name_text (filter is_dict [])))) /\
      (filter is_dict [] = [] -> lookup "artist_names" r = Some (PStr ""))) /\
  (lookup "artists" [("id", PStr "t9")] = None -> @nil value = []) /\
  (forall d0 w0, exists v w', get_track_data Demo.client (PDict d0) w0 = (Ok v, w')).
Proof.
  apply (artist_names_joined_from_dict_entries Demo.client
           [("added_at", PStr "2024-02-01T10:00:00Z");
            ("track", PDict [("id", PStr "t9")])]
           [("id", PStr "t9")] [] Demo.fresh);
    reflexivity.
Defined.

(** An artist value that is an explicit null gives no record at all: the
    entry is skipped with an error line, though its track has an id. *)
Lemma null_artist_list_gives_no_record :
  has_valid_id Demo.null_artists = true /\
  get_track_data Demo.client Demo.null_artists Demo.fresh
    = (Ok PNone,
       {| history := [EvPrint (LogTrackError TypeError)]; disk := disk Demo.fresh |}).
Proof.
  split; reflexivity.
Qed.

(** Entries that are not dicts are filtered out; a dict without a name
    counts as "Unknown Artist". *)
Example artist_names_examples :
  join_artist_names (PList [PInt 3; PStr "x"; PNone]) = Val "" /\
  join_artist_names (PStr "Ann") = Val "" /\
  join_artist_names (PList [Demo.artist "Ann" "a1"; PNone;
                            PDict [("id", PStr "b1")]])
    = Val "Ann, Unknown Artist" /\
  join_artist_names PNone = Exn TypeError /\
  join_artist_names (PList [PDict [("name", PNone)]]) = Exn TypeError.
Proof.
  repeat split; reflexivity.
Qed.

(** C9.  An output path without a directory part is never written:
    [os.path.dirname] gives the empty string, [os.makedirs] refuses it with
    [FileNotFoundError], and the run ends before [to_csv], the rows lost. *)
Theorem bare_file_name_is_never_written P fuel playlist_id output_file w tracks w1 :
  get_playlist_tracks P fuel playlist_id (announced playlist_id w) = (Ok tracks, w1) ->
  Forall (fun v => is_dict v = true) tracks ->
  Posix.has_sep output_file = false ->
  exists w2,
    collect_playlist_data P fuel playlist_id output_file w
      = (Raise FileNotFoundError, w2) /\
    disk w2 = disk w.
Proof.
  intros Hwalk Hd Hsep.
  destruct (enrich_from_dicts P tracks Hd 0 [] (counted tracks w1))
    as [rows [w2 [E [_ [D _]]]]].
  exists (record_event (EvMakedirs "") w2). split.
  - rewrite (collect_saves _ _ _ _ _ _ _ _ _ Hwalk E).
    now apply save_no_directory.
  - cbn. rewrite D. cbn.
    destruct (get_playlist_tracks_grows _ _ _ _ _ _ Hwalk) as [Dw _].
    rewrite Dw. reflexivity.
Qed.

Lemma bare_file_name_demo_run :
  exists w2,
    collect_playlist_data Demo.client 0 "twenty-five" "tracks.csv" Demo.fresh
      = (Raise FileNotFoundError, w2) /\
    disk w2 = disk Demo.fresh.
Proof.
  apply (bare_file_name_is_never_written
           Demo.client 0 "twenty-five" "tracks.csv" Demo.fresh
           Demo.playlist25 (Demo.walked "twenty-five")).
  - reflexivity.
  - repeat constructor.
  - reflexivity.
Defined.

(** With a directory part the same run is written and returned. *)
Example nested_path_demo_run :
  exists df w2,
    collect_playlist_data Demo.client 0 "twenty-five" "data/raw/tracks.csv" Demo.fresh
      = (Ok df, w2) /\
    row_count df = 24 /\
    read_file (disk w2) (Posix.locate "data/raw/tracks.csv") = Some df /\
    is_dir (disk w2) (Posix.locate "data/raw") = true.
Proof.
  eexists. eexists. split; [vm_compute; reflexivity|].
  split; [|split]; vm_compute; reflexivity.
Qed.

(** C10.  An entry that is not a dict (a null entry, say) makes
    [get_track_data] raise [AttributeError] at the first lookup, outside the
    handler, and [collect_playlist_data] passes the exception on: the run
    ends there and nothing is written. *)
Theorem non_dict_entry_aborts_run P fuel playlist_id output_file w tracks w1 v :
  get_playlist_tracks P fuel playlist_id (announced playlist_id w) = (Ok tracks, w1) ->
  In v tracks ->
  is_dict v = false ->
  (forall w0, get_track_data P v w0 = (Raise AttributeError, w0)) /\
  exists w2,
    collect_playlist_data P fuel playlist_id output_file w = (Raise AttributeError, w2) /\
    disk w2 = disk w.
Proof.
  intros Hwalk Hin Hv. split.
  - intros w0. now apply get_track_data_not_dict.
  - assert (Hex : existsb (fun v => negb (is_dict v)) tracks = true).
    { apply existsb_exists. exists v. split; [exact Hin|]. now rewrite Hv. }
    destruct (enrich_from_aborts P tracks Hex 0 [] (counted tracks w1)) as [w2 [E D]].
    exists w2. split.
    + exact (collect_aborts _ _ _ _ _ _ _ _ _ Hwalk E).
    + rewrite D. cbn.
      destruct (get_playlist_tracks_grows _ _ _ _ _ _ Hwalk) as [Dw _].
      rewrite Dw. reflexivity.
Qed.

Lemma null_entry_aborts_demo_run :
  (forall w0, get_track_data Demo.client PNone w0 = (Raise AttributeError, w0)) /\
  exists w2,
    collect_playlist_data Demo.client 0 "null-entry" "data/tracks.csv" Demo.fresh
      = (Raise AttributeError, w2) /\
    disk w2 = disk Demo.fresh.
Proof.
  apply (non_dict_entry_aborts_run
           Demo.client 0 "null-entry" "data/tracks.csv" Demo.fresh
           [Demo.good; PNone; Demo.good] (Demo.walked "null-entry") PNone).
  - reflexivity.
  - simpl. auto.
  - reflexivity.
Defined.

(** * Further properties *)

(** ** The walker's failures *)

Lemma follow_next_fails P fuel p tracks w e :
  truthy (next p) = true ->
  sp_next P (history w) p = Exn e ->
  follow_next P (S fuel) p tracks w = (Raise e, record_event (EvNext p) w).
Proof.
  intros Hn He. cbn [follow_next]. rewrite Hn. unfold bind, call. now rewrite He.
Qed.

Lemma follow_next_never_ends P :
  never_ending P ->
  forall fuel p tracks w,
    truthy (next p) = true ->
    fst (follow_next P fuel p tracks w) = OutOfFuel.
Proof.
  intros Hp. induction fuel as [|fuel IH]; intros p tracks w Hn;
    cbn [follow_next]; rewrite Hn; [reflexivity|].
  destruct (Hp (history w) p) as [q [Hq Hnq]].
  unfold bind, call. rewrite Hq. cbn [lift]. now apply IH.
Qed.

Lemma follow_next_breaks P h p fetched e :
  serves_until P h p fetched e ->
  forall fuel tracks w,
    history w = h ->
    length fetched < fuel ->
    exists w1, follow_next P fuel p tracks w = (Raise e, w1).
Proof.
  induction 1 as [h p e Hn He | h p q fetched e Hn Hq _ IH];
    intros fuel tracks w Hw Hf; (destruct fuel as [|fuel]; [cbn in Hf; lia|]).
  - eexists. apply follow_next_fails; [exact Hn|now rewrite Hw].
  - cbn [follow_next]. rewrite Hn.
    assert (E : call (EvNext p) (fun h0 => sp_next P h0 p) w
                = (Ok q, record_event (EvNext p) w)).
    { unfold call. rewrite Hw, Hq. reflexivity. }
    rewrite (bind_ok _ _ _ _ _ E).
    apply IH; [cbn; now rewrite Hw|cbn in Hf; lia].
Qed.

(** X1.  When the first page cannot be fetched, [get_playlist_tracks] raises the
    provider's error after that single request, and [collect_playlist_data]
    passes it on without processing an entry or touching the disk. *)
Theorem first_page_failure_aborts_run P fuel playlist_id output_file w e :
  sp_playlist_tracks P (history (announced playlist_id w)) playlist_id = Exn e ->
  get_playlist_tracks P fuel playlist_id (announced playlist_id w)
    = (Raise e, record_event (EvPlaylistTracks playlist_id) (announced playlist_id w)) /\
  collect_playlist_data P fuel playlist_id output_file w
    = (Raise e, {| history := history w ++ [EvPrint (LogCollecting playlist_id);
                                             EvPlaylistTracks playlist_id];
                   disk := disk w |}).
Proof.
  intros He.
  assert (E : get_playlist_tracks P fuel playlist_id (announced playlist_id w)
              = (Raise e, record_event (EvPlaylistTracks playlist_id)
                                       (announced playlist_id w))).
  { unfold get_playlist_tracks, bind, call. now rewrite He. }
  split; [exact E|].
  unfold collect_playlist_data, bind at 1, print, emit.
  fold (announced playlist_id w). rewrite (bind_raise _ _ _ _ _ E).
  unfold announced, record_event. cbn [history disk]. now rewrite <- app_assoc.
Qed.

Lemma first_page_failure_demo :
  get_playlist_tracks Demo.client 3 "missing" (announced "missing" Demo.fresh)
    = (Raise (ProviderError "404"),
       record_event (EvPlaylistTracks "missing") (announced "missing" Demo.fresh)) /\
  collect_playlist_data Demo.client 3 "missing" "data/tracks.csv" Demo.fresh
    = (Raise (ProviderError "404"),
       {| history := history Demo.fresh ++ [EvPrint (LogCollecting "missing");
                                            EvPlaylistTracks "missing"];
          disk := disk Demo.fresh |}).
Proof.
  apply (first_page_failure_aborts_run Demo.client 3 "missing" "data/tracks.csv"
           Demo.fresh (ProviderError "404")).
  reflexivity.
Defined.

(** X2.  When a later page cannot be fetched, the pages fetched so far are not
    returned: [get_playlist_tracks] raises the provider's error, and
    [collect_playlist_data] ends with it, the disk untouched. *)
Theorem later_page_failure_loses_fetched_pages
        P fuel playlist_id output_file w first fetched e :
  sp_playlist_tracks P (history (announced playlist_id w)) playlist_id = Val first ->
  serves_until P (history (announced playlist_id w) ++ [EvPlaylistTracks playlist_id])
               first fetched e ->
  length fetched < fuel ->
  (exists w1,
      get_playlist_tracks P fuel playlist_id (announced playlist_id w) = (Raise e, w1)) /\
  exists w2,
    collect_playlist_data P fuel playlist_id output_file w = (Raise e, w2) /\
    disk w2 = disk w.
Proof.
  intros Hfirst Hserved Hfuel.
  assert (E : exists w1,
             get_playlist_tracks P fuel playlist_id (announced playlist_id w)
             = (Raise e, w1)).
  { unfold get_playlist_tracks.
    assert (E0 : call (EvPlaylistTracks playlist_id)
                      (fun h => sp_playlist_tracks P h playlist_id)
                      (announced playlist_id w)
                 = (Ok first, record_event (EvPlaylistTracks playlist_id)
                                           (announced playlist_id w))).
    { unfold call. now rewrite Hfirst. }
    rewrite (bind_ok _ _ _ _ _ E0).
    apply (follow_next_breaks P _ first fetched e Hserved); [reflexivity|exact Hfuel]. }
  split; [exact E|]. destruct E as [w1 E]. exists w1. split.
  - unfold collect_playlist_data, bind at 1, print, emit.
    fold (announced playlist_id w). now rewrite (bind_raise _ _ _ _ _ E).
  - destruct (get_playlist_tracks_grows _ _ _ _ _ _ E) as [D _].
    rewrite D. reflexivity.
Qed.

Lemma second_page_failure_demo :
  (exists w1,
      get_playlist_tracks Sample.flaky 1 "any" (announced "any" Demo.fresh)
      = (Raise (ProviderError "503"), w1)) /\
  exists w2,
    collect_playlist_data Sample.flaky 1 "any" "data/tracks.csv" Demo.fresh
      = (Raise (ProviderError "503"), w2) /\
    disk w2 = disk Demo.fresh.
Proof.
  apply (later_page_failure_loses_fetched_pages
           Sample.flaky 1 "any" "data/tracks.csv" Demo.fresh Demo.page_ab []
           (ProviderError "503")).
  - reflexivity.
  - apply serves_until_fails; reflexivity.
  - simpl. lia.
Defined.

(** X3.  The walker has no page limit: against a provider whose every page
    points to a further one, no amount of fuel lets [get_playlist_tracks]
    or [collect_playlist_data] return or raise, and nothing is written. *)
Theorem endless_next_pointer_never_returns P fuel playlist_id output_file w first :
  never_ending P ->
  sp_playlist_tracks P (history (announced playlist_id w)) playlist_id = Val first ->
  truthy (next first) = true ->
    fst (get_playlist_tracks P fuel playlist_id (announced playlist_id w)) = OutOfFuel /\
    fst (collect_playlist_data P fuel playlist_id output_file w) = OutOfFuel /\
    disk (snd (collect_playlist_data P fuel playlist_id output_file w)) = disk w.
Proof.
  intros Hp Hfirst Hn.
  assert (E : fst (get_playlist_tracks P fuel playlist_id (announced playlist_id w))
              = OutOfFuel).
  { unfold get_playlist_tracks, bind, call. rewrite Hfirst. cbn [lift].
    now apply follow_next_never_ends. }
  split; [exact E|].
  destruct (get_playlist_tracks P fuel playlist_id (announced playlist_id w))
    as [r w1] eqn:Hw. cbn in E. subst r.
  assert (Hc : collect_playlist_data P fuel playlist_id output_file w = (OutOfFuel, w1)).
  { unfold collect_playlist_data, bind at 1, print, emit.
    fold (announced playlist_id w). unfold bind at 1. now rewrite Hw. }
  rewrite Hc. cbn [fst snd]. split; [reflexivity|].
  destruct (get_playlist_tracks_grows _ _ _ _ _ _ Hw) as [D _]. now rewrite D.
Qed.

Lemma endless_provider_demo :
    fst (get_playlist_tracks Sample.endless 1000 "any" (announced "any" Demo.fresh))
      = OutOfFuel /\
    fst (collect_playlist_data Sample.endless 1000 "any" "data/tracks.csv" Demo.fresh)
      = OutOfFuel /\
    disk (snd (collect_playlist_data Sample.endless 1000 "any" "data/tracks.csv"
                                     Demo.fresh)) = disk Demo.fresh.
Proof.
  apply (endless_next_pointer_never_returns
           Sample.endless 1000 "any" "data/tracks.csv" Demo.fresh Demo.page_ab).
  - intros h p. exists Demo.page_ab. split; reflexivity.
  - reflexivity.
  - reflexivity.
Defined.

(** ** The rows of the frame *)

Lemma record_of_extracted track x v :
  track_fields track = Val (Some x) ->
  map fst (dict_set (ex_track_data x) "lyrics" v) = record_columns /\
  without_lyrics (PDict (dict_set (ex_track_data x) "lyrics" v)) = ex_track_data x /\
  lookup "lyrics" (dict_set (ex_track_data x) "lyrics" v) = Some v.
Proof.
  intros Hx.
  destruct (track_fields_some _ _ Hx)
    as [t [ids [an [ad [_ [_ [_ [_ [_ [_ [_ Hdata]]]]]]]]]]].
  rewrite Hdata. repeat split; reflexivity.
Qed.

(** What one entry adds to the rows. *)
Lemma get_track_data_row P d w :
  exists v w',
    get_track_data P (PDict d) w = (Ok v, w') /\
    grows enricher_event w w' /\
    ((truthy v = true /\
      base_rows (PDict d) = [without_lyrics v] /\
      exists r, v = PDict r /\ map fst r = record_columns) \/
     (truthy v = false /\ base_rows (PDict d) = [])).
Proof.
  destruct (builds_record (PDict d)) eqn:B.
  - destruct (get_track_data_record P d w B) as [r [w' [E [T G]]]].
    exists (PDict r), w'. split; [exact E|]. split; [exact G|]. left.
    destruct (get_track_data_record_shape _ _ _ _ _ E) as [x [v [Ht [Hx ->]]]].
    destruct (record_of_extracted _ x v Hx) as [K [W _]].
    split; [exact T|]. split.
    + unfold base_rows. now rewrite Ht, Hx, W.
    + eexists. split; [reflexivity|exact K].
  - destruct (get_track_data_null P d w B) as [w' [E [G _]]].
    exists PNone, w'. split; [exact E|]. split; [exact G|]. right.
    split; [reflexivity|]. unfold builds_record in B. unfold base_rows.
    destruct (truthy (dict_get d "track" PNone)); [|reflexivity].
    cbn [andb] in B.
    destruct (track_fields (dict_get d "track" PNone)) as [[x|]|e];
      [discriminate|reflexivity|reflexivity].
Qed.

Lemma enrich_from_rows P tracks :
  Forall (fun v => is_dict v = true) tracks ->
  forall i acc w,
  exists rows w',
    enrich_from P i tracks acc w = (Ok (acc ++ rows), w') /\
    map without_lyrics rows = flat_map base_rows tracks /\
    Forall (fun row => exists r, row = PDict r /\ map fst r = record_columns) rows.
Proof.
  induction 1 as [|v tracks Hv _ IH]; intros i acc w.
  - exists [], w. cbn. rewrite app_nil_r. auto.
  - destruct v as [| | | | | |d]; try discriminate.
    destruct (get_track_data_row P d w) as [v [w1 [E [_ Hrow]]]].
    rewrite (enrich_from_step _ _ _ _ _ _ _ _ E).
    destruct (IH (S i) (if truthy v then acc ++ [v] else acc) (after_throttle i w1))
      as [rows [w' [E' [Hm Hk]]]].
    cbn [flat_map].
    destruct Hrow as [[T [Hb Hr]] | [T Hb]]; rewrite T in E'; rewrite T, Hb.
    + exists (v :: rows), w'. split; [|split].
      * rewrite E'. now rewrite <- app_assoc.
      * cbn. now rewrite Hm.
      * constructor; assumption.
    + exists rows, w'. auto.
Qed.

(** What one entry adds to the rows, in terms of the entry alone. *)
Lemma get_track_data_expected P d w :
  exists v w',
    get_track_data P (PDict d) w = (Ok v, w') /\
    ((truthy v = true /\
      exists fields, expected_rows (PDict d) = [fields] /\ lyrics_added fields v) \/
     (truthy v = false /\ expected_rows (PDict d) = [])).
Proof.
  destruct (builds_record (PDict d)) eqn:B.
  - destruct (get_track_data_record P d w B) as [r [w' [E [T _]]]].
    exists (PDict r), w'. split; [exact E|]. left. split; [exact T|].
    destruct (get_track_data_record_shape _ _ _ _ _ E) as [x [v [_ [Hx ->]]]].
    destruct (track_fields_some _ _ Hx)
      as [t [ids [an [ad [Ht [_ [Hn [Hi [_ [Han [Had Hdata]]]]]]]]]]].
    rewrite builds_record_sound in B.
    assert (S := B). unfold sound_entry in B. apply andb_prop in B as [_ X].
    unfold extractable in X. rewrite Ht in X. apply andb_prop in X as [X _].
    destruct (iter (dict_get t "artists" (PList []))) as [l|e] eqn:Hl;
      [|discriminate].
    rewrite (join_artist_names_joinable _ _ Hl X) in Hn.
    rewrite (join_artist_ids_texts _ _ Hl X) in Hi.
    exists (expected_fields t). split.
    + unfold expected_rows. now rewrite Ht, S.
    + exists v. rewrite Hdata. unfold expected_fields. rewrite Hl.
      injection Hn as <-. injection Hi as <-.
      rewrite (album_field_text _ _ _ _ Han), (album_field_text _ _ _ _ Had).
      reflexivity.
  - destruct (get_track_data_null P d w B) as [w' [E _]].
    exists PNone, w'. split; [exact E|]. right. split; [reflexivity|].
    rewrite builds_record_sound in B. unfold expected_rows. rewrite B.
    destruct (dict_get d "track" PNone); reflexivity.
Qed.

Lemma enrich_from_expected P tracks :
  Forall (fun v => is_dict v = true) tracks ->
  forall i acc w,
  exists rows w',
    enrich_from P i tracks acc w = (Ok (acc ++ rows), w') /\
    Forall2 lyrics_added (flat_map expected_rows tracks) rows.
Proof.
  induction 1 as [|v tracks Hv _ IH]; intros i acc w.
  - exists [], w. cbn. rewrite app_nil_r. split; [reflexivity|constructor].
  - destruct v as [| | | | | |d]; try discriminate.
    destruct (get_track_data_expected P d w) as [v [w1 [E Hrow]]].
    rewrite (enrich_from_step _ _ _ _ _ _ _ _ E).
    destruct (IH (S i) (if truthy v then acc ++ [v] else acc) (after_throttle i w1))
      as [rows [w' [E' F]]].
    cbn [flat_map].
    destruct Hrow as [[T [fields [Hb Hr]]] | [T Hb]]; rewrite T in E'; rewrite T, Hb.
    + exists (v :: rows), w'. split.
      * rewrite E'. now rewrite <- app_assoc.
      * cbn [app]. constructor; assumption.
    + exists rows, w'. split; assumption.
Qed.

(** X4.  The rows are, in playlist order, the base fields of the entries
    that have a valid id and a track that can be read through (as the
    entries themselves give them), each with a lyrics field added at its
    end; which provider answered the searches changes nothing else: two
    runs under different providers agree on the rows without their
    lyrics. *)
Theorem rows_follow_playlist_order P P' tracks w w0 :
  Forall (fun v => is_dict v = true) tracks ->
  exists rows w' rows' w0',
    enrich_from P 0 tracks [] w = (Ok rows, w') /\
    enrich_from P' 0 tracks [] w0 = (Ok rows', w0') /\
    Forall2 lyrics_added (flat_map expected_rows tracks) rows /\
    Forall2 lyrics_added (flat_map expected_rows tracks) rows' /\
    map without_lyrics rows' = map without_lyrics rows.
Proof.
  intros Hd.
  destruct (enrich_from_expected P tracks Hd 0 [] w) as [rows [w' [E F]]].
  destruct (enrich_from_expected P' tracks Hd 0 [] w0) as [rows' [w0' [E' F']]].
  destruct (enrich_from_rows P tracks Hd 0 [] w) as [rows1 [w1 [E1 [Hm _]]]].
  destruct (enrich_from_rows P' tracks Hd 0 [] w0) as [rows1' [w1' [E1' [Hm' _]]]].
  rewrite E in E1. injection E1 as <- _. rewrite E' in E1'. injection E1' as <- _.
  exists rows, w', rows', w0'. cbn [app] in *.
  repeat split; try assumption. congruence.
Qed.

Lemma rows_follow_order_demo :
  exists rows w' rows' w0',
    enrich_from Demo.client 0 [Demo.good; Demo.removed; Demo.third] [] Demo.fresh
      = (Ok rows, w') /\
    enrich_from Sample.flaky 0 [Demo.good; Demo.removed; Demo.third] [] Demo.fresh
      = (Ok rows', w0') /\
    Forall2 lyrics_added
            (flat_map expected_rows [Demo.good; Demo.removed; Demo.third]) rows /\
    Forall2 lyrics_added
            (flat_map expected_rows [Demo.good; Demo.removed; Demo.third]) rows' /\
    map without_lyrics rows' = map without_lyrics rows.
Proof.
  apply (rows_follow_playlist_order Demo.client Sample.flaky
           [Demo.good; Demo.removed; Demo.third] Demo.fresh Demo.fresh).
  repeat constructor.
Defined.

(** The two entries that give a row, and what the rows hold. *)
Example expected_rows_demo :
  flat_map expected_rows [Demo.good; Demo.removed; Demo.third]
  = [[("id", PStr "t1"); ("name", PStr "Blue"); ("popularity", PInt 57);
      ("explicit", PBool false); ("duration_ms", PInt 201000);
      ("album_name", PStr "First Light"); ("album_release_date", PStr "2019-05-03");
      ("artist_names", PStr "Ann, Bob"); ("artist_ids", PStr "a1, b1")];
     [("id", PStr "t3"); ("name", PStr "Broken"); ("popularity", PInt 57);
      ("explicit", PBool false); ("duration_ms", PInt 201000);
      ("album_name", PStr "First Light"); ("album_release_date", PStr "2019-05-03");
      ("artist_names", PStr "Di"); ("artist_ids", PStr "d1")]].
Proof. reflexivity. Qed.

Lemma add_known_columns cols keys :
  (forall k, In k keys -> existsb (String.eqb k) cols = true) ->
  fold_left add_column keys cols = cols.
Proof.
  revert cols. induction keys as [|k keys IH]; intros cols H; [reflexivity|].
  cbn [fold_left]. unfold add_column at 2. rewrite (H k (or_introl eq_refl)).
  apply IH. intros k' Hk'. apply H. now right.
Qed.

Lemma columns_stay rows :
  Forall (fun row => exists r, row = PDict r /\ map fst r = record_columns) rows ->
  fold_left (fun cols row => fold_left add_column (row_keys row) cols)
            rows record_columns
  = record_columns.
Proof.
  induction 1 as [|row rows [r [-> Hk]] _ IH]; [reflexivity|].
  cbn [fold_left row_keys]. rewrite Hk.
  rewrite add_known_columns; [exact IH|].
  intros k Hin. apply existsb_exists. exists k. split; [exact Hin|apply String.eqb_refl].
Qed.

(** X5.  Every record carries the same ten keys in the same order, so the frame
    of a run has exactly these columns as soon as it has a row, and no
    column at all when no entry gave a record. *)
Theorem frame_columns_are_the_record_keys P tracks w :
  Forall (fun v => is_dict v = true) tracks ->
  exists rows w',
    enrich_from P 0 tracks [] w = (Ok rows, w') /\
    Forall (fun row => exists r, row = PDict r /\ map fst r = record_columns) rows /\
    df_columns (DataFrame rows)
      = (if existsb builds_record tracks then record_columns else []).
Proof.
  intros Hd.
  destruct (enrich_from_rows P tracks Hd 0 [] w) as [rows [w' [E [Hm Hk]]]].
  destruct (enrich_from_dicts P tracks Hd 0 [] w) as [rows0 [w0 [E0 [L _]]]].
  rewrite E in E0. injection E0 as <- _. cbn [app] in *.
  exists rows, w'. split; [exact E|]. split; [exact Hk|].
  destruct (existsb builds_record tracks) eqn:Hb.
  - destruct rows as [|row rows].
    + exfalso. apply existsb_exists in Hb as [v [Hin Hv]].
      assert (In v (filter builds_record tracks)) by (apply filter_In; auto).
      destruct (filter builds_record tracks); [contradiction|discriminate].
    + unfold DataFrame. cbn [df_columns fold_left].
      inversion Hk as [|? ? [r [-> Hr]] Hrest]; subst.
      cbn [row_keys]. rewrite Hr. change (fold_left add_column record_columns [])
        with record_columns.
      now apply columns_stay.
  - assert (filter builds_record tracks = []) as Hf.
    { clear -Hb. induction tracks as [|v tracks IH]; [reflexivity|].
      cbn in *. apply orb_false_elim in Hb as [Hv Ht]. rewrite Hv. now apply IH. }
    rewrite Hf in L. destruct rows; [reflexivity|discriminate].
Qed.

Lemma frame_columns_demo :
  exists rows w',
    enrich_from Demo.client 0 [Demo.removed; Demo.good] [] Demo.fresh = (Ok rows, w') /\
    Forall (fun row => exists r, row = PDict r /\ map fst r = record_columns) rows /\
    df_columns (DataFrame rows)
      = (if existsb builds_record [Demo.removed; Demo.good] then record_columns else []).
Proof.
  apply (frame_columns_are_the_record_keys Demo.client [Demo.removed; Demo.good]
           Demo.fresh).
  repeat constructor.
Defined.

(** ** The number of pauses *)

Lemma twentieth_step n :
  n / 20 = (n - 1) / 20 + (if cadence n then 1 else 0).
Proof.
  unfold cadence. destruct n as [|m]; [reflexivity|].
  replace (S m - 1) with m by lia.
  pose proof (Nat.div_mod_eq (S m) 20) as H1.
  pose proof (Nat.div_mod_eq m 20) as H2.
  pose proof (Nat.mod_upper_bound (S m) 20 ltac:(lia)) as B1.
  pose proof (Nat.mod_upper_bound m 20 ltac:(lia)) as B2.
  change (Nat.ltb 0 (S m)) with true. rewrite andb_true_r.
  destruct (Nat.eqb_spec (S m mod 20) 0); lia.
Qed.

Lemma pauses_length n : length (pauses 0 n) = (n - 1) / 20.
Proof.
  induction n as [|n IH]; [reflexivity|].
  unfold pauses in *. rewrite seq_S, filter_app, length_app, IH. cbn [plus filter].
  replace (S n - 1) with n by lia. rewrite (twentieth_step n).
  destruct (cadence n); reflexivity.
Qed.

Lemma map_const_repeat {A B} (b : B) (l : list A) :
  map (fun _ => b) l = repeat b (length l).
Proof. induction l as [|a l IH]; [reflexivity|]. cbn. now rewrite IH. Qed.

(** X6.  A run over [n] record entries sleeps [(n - 1) / 20] times, two seconds
    each: never for a playlist of at most 20 entries, once for 21 to 40. *)
Theorem run_pauses_once_per_twenty_entries P tracks w :
  Forall (fun v => is_dict v = true) tracks ->
  exists rows w',
    enrich_from P 0 tracks [] w = (Ok rows, w') /\
    sleeps (history w') = sleeps (history w) ++ repeat 2%Z ((length tracks - 1) / 20) /\
    (length tracks <= 20 -> sleeps (history w') = sleeps (history w)).
Proof.
  intros Hd.
  destruct (enrich_from_dicts P tracks Hd 0 [] w) as [rows [w' [E [_ [_ [_ Sl]]]]]].
  cbn [app] in E. exists rows, w'. split; [exact E|].
  rewrite map_const_repeat, pauses_length in Sl. split; [exact Sl|].
  intros Hn. rewrite Sl.
  replace ((length tracks - 1) / 20) with 0; [apply app_nil_r|].
  symmetry. apply Nat.div_small. lia.
Qed.

Lemma run_pauses_demo :
  exists rows w',
    enrich_from Demo.client 0 Demo.playlist25 [] Demo.fresh = (Ok rows, w') /\
    sleeps (history w')
      = sleeps (history Demo.fresh) ++ repeat 2%Z ((length Demo.playlist25 - 1) / 20) /\
    (length Demo.playlist25 <= 20 -> sleeps (history w') = sleeps (history Demo.fresh)).
Proof.
  apply (run_pauses_once_per_twenty_entries Demo.client Demo.playlist25 Demo.fresh).
  repeat constructor.
Defined.

(** ** What a successful run leaves behind *)

Lemma names_eqb_refl l : Posix.names_eqb l l = true.
Proof.
  induction l as [|x l IH]; [reflexivity|]. cbn. now rewrite String.eqb_refl, IH.
Qed.

Lemma loc_eqb_refl loc : Posix.loc_eqb loc loc = true.
Proof.
  unfold Posix.loc_eqb. now rewrite Bool.eqb_reflx, names_eqb_refl.
Qed.

Lemma write_csv_read fs path df fs' :
  write_csv fs path df = Val fs' ->
  read_file fs' (Posix.locate path) = Some df.
Proof.
  unfold write_csv.
  destruct (String.eqb path ""); [discriminate|].
  destruct (is_dir fs (Posix.is_abs path, Posix.components path)
            || Posix.ends_with_sep path); [discriminate|].
  destruct (existsb (is_file fs) _); [discriminate|].
  destruct (negb (is_dir fs _)); [discriminate|].
  intros [= <-]. unfold read_file, Posix.locate. cbn [fs_files find fst].
  now rewrite loc_eqb_refl.
Qed.

Lemma save_ok rows output_file w df w' :
  save rows output_file w = (Ok df, w') ->
  df = DataFrame rows /\
  read_file (disk w') (Posix.locate output_file) = Some df /\
  history w' = history w ++ [EvMakedirs (Posix.dirname output_file);
                             EvToCsv output_file df;
                             EvPrint (LogSaved output_file)].
Proof.
  unfold save, bind, os_makedirs, to_csv, syscall, print, emit, ret.
  destruct (makedirs_exist_ok (disk w) (Posix.dirname output_file)) as [d1|e1];
    cbn; [|discriminate].
  destruct (write_csv d1 output_file (DataFrame rows)) as [d2|e2] eqn:Hw;
    cbn; [|discriminate].
  intros [= <- <-]. cbn. split; [reflexivity|]. split.
  - exact (write_csv_read _ _ _ _ Hw).
  - now rewrite <- !app_assoc.
Qed.

Lemma collect_ok_saved P fuel playlist_id output_file w df w3 :
  collect_playlist_data P fuel playlist_id output_file w = (Ok df, w3) ->
  exists tracks w1 rows w2,
    get_playlist_tracks P fuel playlist_id (announced playlist_id w) = (Ok tracks, w1) /\
    enrich_from P 0 tracks [] (counted tracks w1) = (Ok rows, w2) /\
    save rows output_file w2 = (Ok df, w3).
Proof.
  intros H.
  destruct (get_playlist_tracks P fuel playlist_id (announced playlist_id w))
    as [[tracks| |] w1] eqn:E1.
  - destruct (enrich_from P 0 tracks [] (counted tracks w1)) as [[rows| |] w2] eqn:E2.
    + rewrite (collect_saves _ _ _ _ _ _ _ _ _ E1 E2) in H.
      now exists tracks, w1, rows, w2.
    + rewrite (collect_aborts _ _ _ _ _ _ _ _ _ E1 E2) in H. discriminate.
    + exfalso. revert H. unfold collect_playlist_data, bind at 1, print, emit.
      fold (announced playlist_id w). rewrite (bind_ok _ _ _ _ _ E1).
      unfold bind at 1, emit. fold (counted tracks w1).
      unfold bind at 1. rewrite E2. discriminate.
  - exfalso. revert H. unfold collect_playlist_data, bind at 1, print, emit.
    fold (announced playlist_id w). now rewrite (bind_raise _ _ _ _ _ E1).
  - exfalso. revert H. unfold collect_playlist_data, bind at 1, print, emit.
    fold (announced playlist_id w). unfold bind at 1. rewrite E1. discriminate.
Qed.

(** X7.  When [collect_playlist_data] returns a frame, the file at the output
    path holds exactly that frame, and the last three things the run did
    were, in this order: make the directory of the path, write the frame,
    print the closing line. *)
Theorem returned_frame_is_the_file_written P fuel playlist_id output_file w df w3 :
  collect_playlist_data P fuel playlist_id output_file w = (Ok df, w3) ->
  read_file (disk w3) (Posix.locate output_file) = Some df /\
  exists h,
    history w3 = h ++ [EvMakedirs (Posix.dirname output_file);
                       EvToCsv output_file df;
                       EvPrint (LogSaved output_file)].
Proof.
  intros H.
  destruct (collect_ok_saved _ _ _ _ _ _ _ H) as [tracks [w1 [rows [w2 [_ [_ Hs]]]]]].
  destruct (save_ok _ _ _ _ _ Hs) as [_ [Hr Hh]].
  split; [exact Hr|]. now exists (history w2).
Qed.

Lemma returned_frame_demo :
  row_count Sample.two_page_frame = 3 /\
  read_file (disk (snd Sample.two_page_run)) (Posix.locate "data/raw/tracks.csv")
    = Some Sample.two_page_frame /\
  exists h,
    history (snd Sample.two_page_run)
    = h ++ [EvMakedirs (Posix.dirname "data/raw/tracks.csv");
            EvToCsv "data/raw/tracks.csv" Sample.two_page_frame;
            EvPrint (LogSaved "data/raw/tracks.csv")].
Proof.
  split; [reflexivity|].
  apply (returned_frame_is_the_file_written Demo.client 1 "two-pages"
           "data/raw/tracks.csv" Demo.fresh Sample.two_page_frame).
  vm_compute. reflexivity.
Defined.

(** ** Artist ids and failed searches *)

(** X8.  The joined artist ids hold the id of each dict entry that has an [id]
    key and nothing for the others: the "Unknown ID" default is never used,
    so the ids can be fewer than the names they go with. *)
Theorem artist_ids_skip_entries_without_id P d t l w :
  dict_get d "track" PNone = PDict t ->
  truthy (dict_get t "id" PNone) = true ->
  usable_album (dict_get t "album" (PDict [])) = true ->
  iter (dict_get t "artists" (PList [])) = Val l ->
  forallb joinable_artist l = true ->
  exists r w',
    get_track_data P (PDict d) w = (Ok (PDict r), w') /\
    lookup "artist_ids" r
      = Some (PStr (String.concat ", "
                      (map artist_id_text (filter is_dict_with_id l)))) /\
    length (filter is_dict_with_id l) <= length (filter is_dict l).
Proof.
  intros Ht Hid Halbum Hiter Hl.
  pose proof (join_artist_ids_texts _ _ Hiter Hl) as Hids.
  destruct (album_field_usable _ "name" (PStr "Unknown Album") Halbum) as [an Han].
  destruct (album_field_usable _ "release_date" (PStr "Unknown Date") Halbum)
    as [ad Had].
  destruct (track_fields_builds t _ _ an ad Hid
              (join_artist_names_joinable _ _ Hiter Hl) Hids Han Had)
    as [x [Hx _]].
  assert (B : builds_record (PDict d) = true).
  { unfold builds_record. rewrite Ht, Hx.
    destruct t; [discriminate Hid|reflexivity]. }
  destruct (get_track_data_record P d w B) as [r [w' [E _]]].
  exists r, w'. split; [exact E|]. split.
  - destruct (get_track_data_record_shape _ _ _ _ _ E) as [x0 [v [_ [Hx0 ->]]]].
    rewrite Ht, Hx in Hx0. injection Hx0 as <-.
    destruct (track_fields_some _ _ Hx)
      as [t0 [ids0 [an0 [ad0 [Ht0 [_ [_ [Hi0 [_ [_ [_ Hdata]]]]]]]]]]].
    injection Ht0 as <-. rewrite Hids in Hi0. injection Hi0 as <-.
    rewrite Hdata. reflexivity.
  - apply filter_length_mono. intros a Ha. destruct a; try discriminate. reflexivity.
Qed.

Lemma artist_ids_demo :
  exists r w',
    get_track_data Demo.client
      (Demo.entry (Demo.track "t5" "Duo"
                     (PList [Demo.artist "Ann" "a1"; PDict [("name", PStr "Bob")]])))
      Demo.fresh = (Ok (PDict r), w') /\
    lookup "artist_ids" r
      = Some (PStr (String.concat ", "
                      (map artist_id_text
                           (filter is_dict_with_id
                                   [Demo.artist "Ann" "a1"; PDict [("name", PStr "Bob")]])))) /\
    length (filter is_dict_with_id
                   [Demo.artist "Ann" "a1"; PDict [("name", PStr "Bob")]])
    <= length (filter is_dict [Demo.artist "Ann" "a1"; PDict [("name", PStr "Bob")]]).
Proof.
  apply (artist_ids_skip_entries_without_id Demo.client
           [("added_at", PStr "2024-02-01T10:00:00Z");
            ("track", Demo.track "t5" "Duo"
                        (PList [Demo.artist "Ann" "a1"; PDict [("name", PStr "Bob")]]))]
           [("id", PStr "t5");
            ("name", PStr "Duo");
            ("popularity", PInt 57);
            ("explicit", PBool false);
            ("duration_ms", PInt 201000);
            ("album", PDict [("name", PStr "First Light");
                             ("release_date", PStr "2019-05-03")]);
            ("artists", PList [Demo.artist "Ann" "a1"; PDict [("name", PStr "Bob")]])]
           [Demo.artist "Ann" "a1"; PDict [("name", PStr "Bob")]] Demo.fresh);
    reflexivity.
Defined.

(** Two names, one id. *)
Example artist_ids_fewer_than_names :
  join_artist_names (PList [Demo.artist "Ann" "a1"; PDict [("name", PStr "Bob")]])
    = Val "Ann, Bob" /\
  join_artist_ids (PList [Demo.artist "Ann" "a1"; PDict [("name", PStr "Bob")]])
    = Val "a1".
Proof. split; reflexivity. Qed.

(** X9.  A lyrics search that fails, or finds nothing, costs the record its
    lyrics and nothing else: the record is returned with its base fields
    and null lyrics, after the one search and, on failure, one error
    line. *)
Theorem failed_search_keeps_the_record P d x w reply :
  truthy (dict_get d "track" PNone) = true ->
  track_fields (dict_get d "track" PNone) = Val (Some x) ->
  wants_lyrics x = true ->
  genius_search_song P (history w) (ex_track_name x) (PStr (ex_artist_names x))
    = reply ->
  (forall s, reply <> Val (Some s)) ->
  get_track_data P (PDict d) w
  = (Ok (PDict (dict_set (ex_track_data x) "lyrics" PNone)),
     {| history :=
          history w ++
          EvSearchSong (ex_track_name x) (PStr (ex_artist_names x))
          :: match reply with
             | Exn e => [EvPrint (LogLyricsError (ex_track_name x)
                                                 (PStr (ex_artist_names x)) e)]
             | Val _ => []
             end;
        disk := disk w |}) /\
  without_lyrics (PDict (dict_set (ex_track_data x) "lyrics" PNone)) = ex_track_data x.
Proof.
  intros Ht Hx Hw Hreply Hmiss.
  assert (E : get_track_data P (PDict d) w = add_lyrics P x w).
  { rewrite get_track_data_dict. cbv zeta. now rewrite Ht, Hx. }
  assert (A : add_lyrics P x w
              = bind (get_lyrics P (PStr (ex_artist_names x)) (ex_track_name x))
                     (fun found =>
                        ret (PDict (dict_set (ex_track_data x) "lyrics" found))) w).
  { unfold add_lyrics. fold (wants_lyrics x). now rewrite Hw. }
  split; [|exact (proj1 (proj2 (record_of_extracted _ x PNone Hx)))].
  rewrite E, A. unfold bind. rewrite get_lyrics_eq. cbv zeta. rewrite Hreply.
  destruct reply as [[s|]|e].
  - exfalso. now apply (Hmiss s).
  - reflexivity.
  - unfold ret, record_event. cbn [history disk]. now rewrite <- app_assoc.
Qed.

Lemma failed_search_demo :
  get_track_data Demo.client Demo.third Demo.fresh
  = (Ok (PDict (dict_set (ex_track_data Sample.third_fields) "lyrics" PNone)),
     {| history :=
          history Demo.fresh ++
          [EvSearchSong (PStr "Broken") (PStr "Di");
           EvPrint (LogLyricsError (PStr "Broken") (PStr "Di") (ProviderError "timeout"))];
        disk := disk Demo.fresh |}) /\
  without_lyrics (PDict (dict_set (ex_track_data Sample.third_fields) "lyrics" PNone))
  = ex_track_data Sample.third_fields.
Proof.
  apply (failed_search_keeps_the_record Demo.client
           [("added_at", PStr "2024-02-01T10:00:00Z");
            ("track", Demo.track "t3" "Broken" (PList [Demo.artist "Di" "d1"]))]
           Sample.third_fields Demo.fresh (Exn (ProviderError "timeout")));
    try reflexivity.
  intros s. discriminate.
Defined.

Lemma malformed_fields track e : malformed track e -> track_fields track = Exn e.
Proof.
  intros [tr Hd | t e' Hid Hi | t l Hid Hi Hl Ha Hd].
  - destruct tr; try discriminate; reflexivity.
  - unfold track_fields. cbn [get exc_bind]. rewrite Hid. cbn [negb].
    unfold join_artist_names. now rewrite Hi.
  - unfold track_fields. cbn [get exc_bind]. rewrite Hid. cbn [negb].
    rewrite (join_artist_names_joinable _ _ Hi Hl).
    destruct (join_artist_ids_joinable _ _ Hi Hl) as [ids ->]. cbn [exc_bind].
    unfold album_field. rewrite Ha.
    destruct (dict_get t "album" (PDict [])); try discriminate; reflexivity.
Qed.

(** X10.  A track payload that is not a dict (a string, a number, a list), an
    artist value that cannot be iterated, or a non-empty album that is not
    a dict: the entry is answered with null after one error line naming the
    exception, and [get_track_data] does not raise. *)
Theorem malformed_track_is_skipped P d track e w :
  dict_get d "track" PNone = track ->
  truthy track = true ->
  malformed track e ->
  get_track_data P (PDict d) w
  = (Ok PNone, record_event (EvPrint (LogTrackError e)) w).
Proof.
  intros Ht Htruthy Hbad. rewrite get_track_data_dict. cbv zeta.
  rewrite Ht, Htruthy, (malformed_fields _ _ Hbad). reflexivity.
Qed.

Lemma album_string_is_skipped :
  get_track_data Demo.client
    (Demo.entry (PDict [("id", PStr "t6"); ("album", PStr "First Light")])) Demo.fresh
  = (Ok PNone, record_event (EvPrint (LogTrackError AttributeError)) Demo.fresh).
Proof.
  apply (malformed_track_is_skipped Demo.client
           [("added_at", PStr "2024-02-01T10:00:00Z");
            ("track", PDict [("id", PStr "t6"); ("album", PStr "First Light")])]
           (PDict [("id", PStr "t6"); ("album", PStr "First Light")])
           AttributeError Demo.fresh).
  - reflexivity.
  - reflexivity.
  - apply album_not_a_dict with (l := []); reflexivity.
Defined.

(** ** The constructor *)

Import Discovery.

(** X11.  [__init__] raises the Spotify [ValueError] when no Spotify id or
    no Spotify secret is given as argument or found in the settings, and
    the Genius [ValueError] when these are there but no token is, whatever
    the client constructors would do.  Otherwise it builds the clients from
    the arguments where they were given and from the settings where not,
    and an exception of a constructor is its outcome.  A collector that is
    returned holds no empty credential, its clients are the ones built from
    the credentials it holds, and its Genius client is set to be quiet, to
    remove section headers and to skip what is not a song. *)
Theorem collector_holds_no_empty_credential
        (credentials_manager spotify_client genius_client : Type)
        (lib : library credentials_manager spotify_client genius_client)
        cfg id secret token :
  let effective_id := if truthy id then id else SPOTIFY_CLIENT_ID cfg in
  let effective_secret := if truthy secret then secret else SPOTIFY_CLIENT_SECRET cfg in
  let effective_token := if truthy token then token else GENIUS_ACCESS_TOKEN cfg in
  match __init__ lib cfg id secret token with
  | Done self =>
      truthy (client_id self) = true /\
      truthy (client_secret self) = true /\
      truthy (genius_token self) = true /\
      client_id self = effective_id /\
      client_secret self = effective_secret /\
      genius_token self = effective_token /\
      (exists manager,
          SpotifyClientCredentials lib (client_id self) (client_secret self)
            = Val manager /\
          Spotify lib manager = Val (sp self)) /\
      Genius lib (genius_token self) = Val (api (genius self)) /\
      verbose (genius self) = false /\
      remove_section_headers (genius self) = true /\
      skip_non_songs (genius self) = true
  | Failed f =>
      (f = ValueError missing_spotify /\
       truthy effective_id && truthy effective_secret = false) \/
      (f = ValueError missing_genius /\
       truthy effective_id && truthy effective_secret = true /\
       truthy effective_token = false) \/
      (truthy effective_id && truthy effective_secret && truthy effective_token = true /\
       exists e,
         f = Builtin e /\
         (SpotifyClientCredentials lib effective_id effective_secret = Exn e \/
          (exists manager,
              SpotifyClientCredentials lib effective_id effective_secret = Val manager /\
              Spotify lib manager = Exn e) \/
          Genius lib effective_token = Exn e))
  end.
Proof.
  intros effective_id effective_secret effective_token.
  unfold __init__, or_else. fold effective_id effective_secret effective_token.
  destruct (truthy effective_id) eqn:A; cbn [negb orb andb];
    [|left; split; reflexivity].
  destruct (truthy effective_secret) eqn:B; cbn [negb orb andb];
    [|left; split; reflexivity].
  destruct (truthy effective_token) eqn:T; cbn [negb orb andb];
    [|right; left; repeat split; reflexivity].
  destruct (SpotifyClientCredentials lib effective_id effective_secret)
    as [manager|e] eqn:Hm;
    [|right; right; split; [reflexivity|]; exists e; split; [reflexivity|now left]].
  destruct (Spotify lib manager) as [client|e] eqn:Hs;
    [|right; right; split; [reflexivity|]; exists e; split; [reflexivity|];
      right; left; now exists manager].
  destruct (Genius lib effective_token) as [lyricist|e] eqn:Hg;
    [|right; right; split; [reflexivity|]; exists e; split; [reflexivity|];
      right; now right].
  cbn [client_id client_secret genius_token sp genius api verbose
       remove_section_headers skip_non_songs].
  repeat (split; [assumption || reflexivity|]).
  split; [now exists manager|]. split; [exact Hg|]. repeat split; reflexivity.
Qed.

(** A token given as argument wins over the setting; a token that is a
    number passes the check and fails in the Genius constructor. *)
Example constructor_examples :
  __init__ Shelf.strings_only (mk_settings (PStr "id") (PStr "secret") (PStr "env"))
           PNone PNone (PStr "arg")
    = Done (mk_collector unit unit (PStr "id") (PStr "secret") (PStr "arg") tt
                         (mk_genius_handle unit tt false true true)) /\
  __init__ Shelf.strings_only (mk_settings (PStr "id") (PStr "secret") PNone)
           PNone PNone (PInt 5)
    = Failed (Builtin TypeError) /\
  __init__ Shelf.strings_only (mk_settings PNone PNone PNone) PNone PNone PNone
    = Failed (ValueError missing_spotify) /\
  __init__ Shelf.strings_only (mk_settings (PStr "id") (PStr "secret") (PStr ""))
           PNone PNone PNone
    = Failed (ValueError missing_genius).
Proof. repeat split; reflexivity. Qed.

(** ** Audio features *)

Lemma get_track_features_eq C track_id s :
  get_track_features C track_id s =
  match sp_audio_features C s track_id with
  | Val listed =>
      match first_of listed with
      | Done features => (Done features, jot (AskedFeatures track_id) s)
      | Failed f =>
          (Done PNone,
           jot (Said (FeaturesError track_id f)) (jot (AskedFeatures track_id) s))
      end
  | Exn e =>
      (Done PNone,
       jot (Said (FeaturesError track_id (Builtin e)))
           (jot (AskedFeatures track_id) s))
  end.
Proof.
  unfold get_track_features, try_except, bind, ask, pure, say, ret.
  destruct (sp_audio_features C s track_id) as [listed|e]; cbn [of_exc];
    [|reflexivity].
  destruct (first_of listed); reflexivity.
Qed.

Lemma get_track_features_done C track_id s :
  exists features s',
    get_track_features C track_id s = (Done features, s') /\
    base s' = base s /\
    features = (match sp_audio_features C s track_id with
                | Val listed =>
                    match first_of listed with
                    | Done first => first
                    | Failed _ => PNone
                    end
                | Exn _ => PNone
                end).
Proof.
  rewrite get_track_features_eq.
  destruct (sp_audio_features C s track_id) as [listed|e].
  - destruct (first_of listed) as [first|f]; eexists; eexists;
      (split; [reflexivity|]); cbn; auto.
  - eexists; eexists. split; [reflexivity|]. cbn. auto.
Qed.

(** X12.  [get_track_features] never fails and touches neither the history nor
    the disk: it returns the first element of the provider's reply, and
    null, after one error line, when the provider raises or the reply has
    no first element (an empty list, null, a number). *)
Theorem get_track_features_never_fails C track_id s :
  exists features s',
    get_track_features C track_id s = (Done features, s') /\
    base s' = base s /\
    features = (match sp_audio_features C s track_id with
                | Val listed =>
                    match first_of listed with
                    | Done first => first
                    | Failed _ => PNone
                    end
                | Exn _ => PNone
                end) /\
    journal s' = journal s ++
                 AskedFeatures track_id
                 :: (match sp_audio_features C s track_id with
                     | Val listed =>
                         match first_of listed with
                         | Done _ => []
                         | Failed f => [Said (FeaturesError track_id f)]
                         end
                     | Exn e => [Said (FeaturesError track_id (Builtin e))]
                     end).
Proof.
  rewrite get_track_features_eq.
  destruct (sp_audio_features C s track_id) as [listed|e].
  - destruct (first_of listed) as [first|f]; eexists; eexists;
      (split; [reflexivity|]); cbn; rewrite <- ?app_assoc; auto.
  - eexists; eexists. split; [reflexivity|]. cbn. rewrite <- ?app_assoc. auto.
Qed.

(** An empty reply, a null entry, a provider error. *)
Example get_track_features_examples :
  fst (get_track_features Shelf.client (PStr "t1") Shelf.fresh) = Done Shelf.features /\
  get_track_features Shelf.client (PStr "t2") Shelf.fresh
    = (Done PNone, jot (AskedFeatures (PStr "t2")) Shelf.fresh) /\
  get_track_features Shelf.client (PStr "t3") Shelf.fresh
    = (Done PNone,
       jot (Said (FeaturesError (PStr "t3") IndexError))
           (jot (AskedFeatures (PStr "t3")) Shelf.fresh)) /\
  get_track_features Shelf.client (PStr "t4") Shelf.fresh
    = (Done PNone,
       jot (Said (FeaturesError (PStr "t4") (Builtin (ProviderError "429"))))
           (jot (AskedFeatures (PStr "t4")) Shelf.fresh)).
Proof. repeat split; reflexivity. Qed.

(** ** Search *)

Lemma show_items_done items :
  forall i s, exists s',
    show_items i items s = (Done tt, s') /\ base s' = base s.
Proof.
  induction items as [|shown items IH]; intros i s.
  - exists s. split; reflexivity.
  - cbn [show_items].
    assert (H : exists s1,
               (match shown with
                | PNone => say (InvalidItem (i + 1))
                | _ =>
                    try_except
                      (bind (pure (of_exc (get shown "name" (PStr "[No name]"))))
                         (fun name =>
                          bind (pure (of_exc (get shown "owner" (PDict []))))
                            (fun owner =>
                             bind (pure (of_exc
                                           (get (match owner with
                                                 | PNone => PDict []
                                                 | _ => owner
                                                 end)
                                                "display_name" (PStr "[Unknown]"))))
                               (fun owner_display_name =>
                                bind (pure (of_exc (get shown "id" (PStr "[No ID]"))))
                                  (fun item_id =>
                                   say (ListedItem (i + 1) name owner_display_name
                                                   item_id))))))
                      (fun f => say (DisplayError (i + 1) f))
                end) s = (Done tt, s1) /\ base s1 = base s).
    { destruct shown as [| | | | | |d];
        try (eexists; split; reflexivity).
      unfold try_except, bind, pure, say. cbn [get of_exc].
      destruct (dict_get d "owner" (PDict [])); cbn [get of_exc];
        eexists; split; reflexivity. }
    destruct H as [s1 [E1 B1]].
    destruct (IH (S i) s1) as [s' [E' B']].
    exists s'. split; [|congruence].
    unfold bind at 1. rewrite E1. exact E'.
Qed.

Lemma search_and_collect_run C query search_type limit s :
  exists s',
    search_and_collect C query search_type limit s =
    (match sp_search C s query search_type limit with
       | Exn _ => Done PNone
       | Val results =>
           match items_of results search_type with
           | Exn _ => Done PNone
           | Val items =>
               if negb (truthy items) then Done PNone
               else
                 match len items, iter items with
                 | Val _, Val listed => Done (first_id listed)
                 | Exn e, _ => Failed (Builtin e)
                 | Val _, Exn e => Failed (Builtin e)
                 end
           end
       end,
     s') /\
    base s' = base s.
Proof.
  unfold search_and_collect. unfold bind at 1. unfold try_except, ask.
  unfold bind at 1.
  destruct (sp_search C s query search_type limit) as [results|e]; cbn [of_exc].
  - unfold bind at 1, pure.
    destruct (items_of results search_type) as [items|e]; cbn [of_exc].
    + unfold ret at 1. destruct (truthy items); cbn [negb].
      * unfold bind at 1. destruct (len items) as [n|e]; cbn [of_exc].
        -- unfold bind at 1, say. unfold bind at 1.
           destruct (iter items) as [listed|e]; cbn [of_exc].
           ++ unfold bind at 1.
              destruct (show_items_done listed 0
                          (jot (Said (FoundCount n search_type query))
                               (jot (AskedSearch query search_type limit) s)))
                as [s' [E B]].
              rewrite E. unfold bind, ret. cbn. eexists. split; [reflexivity|exact B].
           ++ eexists. split; reflexivity.
        -- destruct (iter items); eexists; split; reflexivity.
      * eexists. split; reflexivity.
    + eexists. split; reflexivity.
  - eexists. split; reflexivity.
Qed.

(** X13.  The outcome of [search_and_collect], by the shape of the provider's
    reply: null when the search raises, when the reply is not a dict of
    dicts, or when it holds no item; the id of the first item that is a dict
    with an [id] key when the items are a list (or a string or dict); and an
    uncaught [TypeError] when the items are a non-zero number or [True].
    What the listing loop meets never changes the outcome, and the method
    touches neither the history nor the disk. *)
Theorem search_and_collect_outcome C query search_type limit s :
  fst (search_and_collect C query search_type limit s) =
  match sp_search C s query search_type limit with
  | Exn _ => Done PNone
  | Val results =>
      match items_of results search_type with
      | Exn _ => Done PNone
      | Val items =>
          if negb (truthy items) then Done PNone
          else
            match len items, iter items with
            | Val _, Val listed => Done (first_id listed)
            | Exn e, _ => Failed (Builtin e)
            | Val _, Exn e => Failed (Builtin e)
            end
      end
  end /\
  base (snd (search_and_collect C query search_type limit s)) = base s.
Proof.
  destruct (search_and_collect_run C query search_type limit s) as [s' [E B]].
  rewrite E. split; [reflexivity|exact B].
Qed.

Lemma first_id_skips pre d post v :
  Forall (fun it => is_dict_with_id it = false) pre ->
  lookup "id" d = Some v ->
  first_id (pre ++ PDict d :: post) = v.
Proof.
  intros Hpre Hd. induction Hpre as [|it pre Hit _ IH]; cbn.
  - now rewrite Hd.
  - destruct it as [| | | | | |a]; try exact IH.
    cbn in Hit. unfold has_key in Hit.
    destruct (lookup "id" a); [discriminate|exact IH].
Qed.

Lemma first_id_none items :
  Forall (fun it => is_dict_with_id it = false) items -> first_id items = PNone.
Proof.
  induction 1 as [|it items Hit _ IH]; [reflexivity|]. cbn.
  destruct it as [| | | | | |a]; try exact IH.
  cbn in Hit. unfold has_key in Hit.
  destruct (lookup "id" a); [discriminate|exact IH].
Qed.

(** X14.  From a list of items, [search_and_collect] returns the value under
    [id] of the first item that is a dict with that key, whatever comes
    before it (null items, items without id, items that cannot be listed)
    and after it.  The value is returned as it is, so a null id there makes
    the search look empty-handed. *)
Theorem search_returns_first_item_with_id C query search_type limit s
        results pre d post v :
  sp_search C s query search_type limit = Val results ->
  items_of results search_type = Val (PList (pre ++ PDict d :: post)) ->
  Forall (fun it => is_dict_with_id it = false) pre ->
  lookup "id" d = Some v ->
  fst (search_and_collect C query search_type limit s) = Done v.
Proof.
  intros Hs Hi Hpre Hd.
  assert (T : truthy (PList (pre ++ PDict d :: post)) = true).
  { cbn. destruct pre; reflexivity. }
  destruct (search_and_collect_run C query search_type limit s) as [s' [E _]].
  rewrite E, Hs, Hi, T. cbn [negb len iter fst].
  now rewrite (first_id_skips pre d post v Hpre Hd).
Qed.

Lemma search_returns_first_item_demo :
  fst (search_and_collect Shelf.client "chill" "playlist" 3 Shelf.fresh)
  = Done (PStr "p1").
Proof.
  apply (search_returns_first_item_with_id Shelf.client "chill" "playlist" 3 Shelf.fresh
           (PDict [("playlists",
                    PDict [("items",
                            PList [PNone;
                                   PDict [("name", PStr "No id")];
                                   Shelf.playlist "Chill one" "p1";
                                   Shelf.playlist "Chill two" "p2"])])])
           [PNone; PDict [("name", PStr "No id")]]
           [("name", PStr "Chill one");
            ("owner", PDict [("display_name", PStr "ann")]);
            ("id", PStr "p1")]
           [Shelf.playlist "Chill two" "p2"] (PStr "p1")).
  - reflexivity.
  - reflexivity.
  - repeat constructor.
  - reflexivity.
Defined.

(** No item, a number for items, a provider error; and a null id in front
    of a good one. *)
Example search_and_collect_examples :
  fst (search_and_collect Shelf.client "void" "playlist" 3 Shelf.fresh) = Done PNone /\
  fst (search_and_collect Shelf.client "odd" "playlist" 3 Shelf.fresh)
    = Failed (Builtin TypeError) /\
  search_and_collect Shelf.client "down" "playlist" 3 Shelf.fresh
    = (Done PNone,
       jot (Said (SearchError "playlist" (Builtin (ProviderError "401"))))
           (jot (AskedSearch "down" "playlist" 3) Shelf.fresh)) /\
  first_id [PDict [("id", PNone)]; Shelf.playlist "Chill one" "p1"] = PNone.
Proof. repeat split; reflexivity. Qed.

(** ** Recommendations *)

Lemma strict_fields_shape track data :
  strict_fields track = Val data ->
  (exists v, item track "id" = Val v) /\
  exists v1 v2 v3 v4 v5 v6 v7 v8 v9,
    data = [("id", v1); ("name", v2); ("popularity", v3); ("explicit", v4);
            ("duration_ms", v5); ("album_name", v6); ("album_release_date", v7);
            ("artist_names", v8); ("artist_ids", v9)].
Proof.
  unfold strict_fields. intros H.
  repeat match type of H with
         | exc_bind ?c _ = Val _ =>
             let E := fresh "E" in
             destruct c eqn:E; cbn [exc_bind] in H; [|discriminate]
         end.
  injection H as <-. split; [now eexists|]. repeat eexists.
Qed.

Lemma pick_dict fd keys :
  pick (PDict fd) keys = Val (map (fun k => (k, dict_get fd k PNone)) keys).
Proof.
  induction keys as [|k keys IH]; [reflexivity|].
  cbn [pick get exc_bind map]. now rewrite IH.
Qed.

Lemma with_features_dict track data fd :
  strict_fields track = Val data ->
  truthy (PDict fd) = true ->
  with_features data (PDict fd) = Val (data ++ feature_fields (PDict fd)).
Proof.
  intros H T. destruct (strict_fields_shape _ _ H)
    as [_ [v1 [v2 [v3 [v4 [v5 [v6 [v7 [v8 [v9 ->]]]]]]]]]].
  unfold with_features, feature_fields. rewrite pick_dict, T. reflexivity.
Qed.

Lemma pause_eq i s :
  (if Nat.eqb (i mod 50) 0 && Nat.ltb 0 i then pause 1 else ret tt) s
  = (Done tt, after_pause i s).
Proof.
  unfold after_pause, cadence50.
  destruct (Nat.eqb (i mod 50) 0 && Nat.ltb 0 i); reflexivity.
Qed.

Lemma after_pause_sleeps i s :
  sleeps (history (base (after_pause i s)))
  = sleeps (history (base s)) ++ (if cadence50 i then [1%Z] else []).
Proof.
  unfold after_pause. destruct (cadence50 i); cbn.
  - unfold sleeps. rewrite flat_map_app. reflexivity.
  - now rewrite app_nil_r.
Qed.

Lemma after_pause_disk i s : disk (base (after_pause i s)) = disk (base s).
Proof. unfold after_pause. destruct (cadence50 i); reflexivity. Qed.

(** One turn of the loop on a track whose fields can all be read. *)
Lemma recommend_step C track data s :
  tame C ->
  strict_fields track = Val data ->
  exists row s1,
    row_of C track row /\
    base s1 = base s /\
    forall i rest acc,
      recommend_from C i (track :: rest) acc s
      = recommend_from C (S i) rest (acc ++ [row]) (after_pause i s1).
Proof.
  intros Ht Hd. destruct (strict_fields_shape _ _ Hd) as [[tid Hid] _].
  destruct (get_track_features_done C tid s) as [features [s1 [E [B Hf]]]].
  fold (features_reply C s tid) in Hf.
  assert (Hrow : (if truthy features
                  then pure (of_exc (with_features data features))
                  else ret data) s1
                 = (Done (data ++ feature_fields features), s1)).
  { destruct (truthy features) eqn:T.
    - assert (D : is_dict features = true).
      { unfold features_reply in Hf.
        destruct (sp_audio_features C s tid) as [listed|e] eqn:Hl;
          [|subst; discriminate].
        destruct (first_of listed) as [first|f] eqn:Hfirst; [|subst; discriminate].
        subst first. exact (Ht s tid listed features Hl Hfirst T). }
      destruct features as [| | | | | |fd]; try discriminate.
      unfold pure. now rewrite (with_features_dict _ _ fd Hd T).
    - assert (F : feature_fields features = []).
      { unfold feature_fields. destruct features; try reflexivity. now rewrite T. }
      rewrite F, app_nil_r. reflexivity. }
  exists (PDict (data ++ feature_fields features)), s1.
  split; [|split; [exact B|]].
  - exists data, tid, s. rewrite Hf. auto.
  - intros i rest acc. cbn [recommend_from].
    unfold bind at 1. unfold pure at 1. rewrite Hd. cbn [of_exc]. cbv beta iota.
    unfold bind at 1. unfold pure at 1. rewrite Hid. cbn [of_exc]. cbv beta iota.
    unfold bind at 1. rewrite E. cbv beta iota.
    unfold bind at 1. rewrite Hrow. cbv beta iota.
    unfold bind at 1. rewrite pause_eq. reflexivity.
Qed.

Lemma recommend_from_done C :
  tame C ->
  forall tracks,
    Forall (fun track => exists data, strict_fields track = Val data) tracks ->
    forall i acc s,
    exists rows s',
      recommend_from C i tracks acc s = (Done (acc ++ rows), s') /\
      Forall2 (row_of C) tracks rows /\
      disk (base s') = disk (base s) /\
      sleeps (history (base s'))
      = sleeps (history (base s)) ++
        map (fun _ => 1%Z) (filter cadence50 (seq i (length tracks))).
Proof.
  intros Ht tracks Hall. induction Hall as [|track tracks [data Hd] _ IH];
    intros i acc s.
  - exists [], s. cbn. rewrite !app_nil_r. auto.
  - destruct (recommend_step C track data s Ht Hd) as [row [s1 [Hrow [B Hstep]]]].
    rewrite Hstep.
    destruct (IH (S i) (acc ++ [row]) (after_pause i s1)) as [rows [s' [E [F [D Sl]]]]].
    exists (row :: rows), s'. split; [|split; [|split]].
    + rewrite E. now rewrite <- app_assoc.
    + constructor; assumption.
    + rewrite D, after_pause_disk. now rewrite B.
    + rewrite Sl, after_pause_sleeps, B, <- app_assoc. cbn [length seq filter].
      destruct (cadence50 i); reflexivity.
Qed.


Lemma get_recommendations_loop C seed_tracks seed_artists seed_genres limit s
      recommendations listed tracks :
  sp_recommendations C s seed_tracks seed_artists seed_genres limit
    = Val recommendations ->
  item recommendations "tracks" = Val listed ->
  iter listed = Val tracks ->
  get_recommendations C seed_tracks seed_artists seed_genres limit s
  = recommend_from C 0 tracks []
      (jot (AskedRecommendations seed_tracks seed_artists seed_genres limit) s).
Proof.
  intros Hr Hl Ht. unfold get_recommendations.
  unfold bind at 1. unfold ask. rewrite Hr. cbn [of_exc]. cbv beta iota.
  unfold bind at 1. unfold pure at 1. rewrite Hl. cbn [of_exc]. cbv beta iota.
  unfold bind at 1. unfold pure at 1. rewrite Ht. reflexivity.
Qed.

Lemma fiftieth_step n :
  n / 50 = (n - 1) / 50 + (if cadence50 n then 1 else 0).
Proof.
  unfold cadence50. destruct n as [|m]; [reflexivity|].
  replace (S m - 1) with m by lia.
  pose proof (Nat.div_mod_eq (S m) 50) as H1.
  pose proof (Nat.div_mod_eq m 50) as H2.
  pose proof (Nat.mod_upper_bound (S m) 50 ltac:(lia)) as B1.
  pose proof (Nat.mod_upper_bound m 50 ltac:(lia)) as B2.
  change (Nat.ltb 0 (S m)) with true. rewrite andb_true_r.
  destruct (Nat.eqb_spec (S m mod 50) 0); lia.
Qed.

Lemma pauses50_length n : length (filter cadence50 (seq 0 n)) = (n - 1) / 50.
Proof.
  induction n as [|n IH]; [reflexivity|].
  rewrite seq_S, filter_app, length_app, IH. cbn [plus filter].
  replace (S n - 1) with n by lia. rewrite (fiftieth_step n).
  destruct (cadence50 n); reflexivity.
Qed.




(** X16.  The same call pauses one second after every fiftieth track: with [n]
    tracks, [(n - 1) / 50] times; and it never touches the disk. *)
Theorem recommendations_pause_every_fifty
        C seed_tracks seed_artists seed_genres limit s recommendations listed tracks :
  tame C ->
  sp_recommendations C s seed_tracks seed_artists seed_genres limit
    = Val recommendations ->
  item recommendations "tracks" = Val listed ->
  iter listed = Val tracks ->
  Forall (fun track => exists data, strict_fields track = Val data) tracks ->
  exists rows s',
    get_recommendations C seed_tracks seed_artists seed_genres limit s
      = (Done rows, s') /\
    sleeps (history (base s'))
      = sleeps (history (base s)) ++ repeat 1%Z ((length tracks - 1) / 50) /\
    disk (base s') = disk (base s).
Proof.
  intros Ht Hr Hl Hi Hall.
  rewrite (get_recommendations_loop _ _ _ _ _ _ _ _ _ Hr Hl Hi).
  destruct (recommend_from_done C Ht tracks Hall 0 []
              (jot (AskedRecommendations seed_tracks seed_artists seed_genres limit) s))
    as [rows [s' [E [_ [D Sl]]]]].
  exists rows, s'. split; [exact E|]. split; [|exact D].
  rewrite Sl, map_const_repeat, pauses50_length. reflexivity.
Qed.


Lemma steady_is_tame : tame Shelf.steady.
Proof.
  intros s track_id listed features Hl Hf _.
  cbn in Hl. injection Hl as <-. cbn in Hf. injection Hf as <-. reflexivity.
Qed.

Lemma jazz_is_complete :
  Forall (fun track => exists data, strict_fields track = Val data) Shelf.jazz.
Proof.
  repeat constructor; eexists; reflexivity.
Qed.



(** Features, a null entry, an empty reply: what the rows hold. *)
Example recommendations_rows_demo :
  fst (get_recommendations Shelf.client PNone PNone (PList [PStr "jazz"]) 50 Shelf.fresh)
  = Done
      (map (fun fields => PDict fields)
         [[("id", PStr "t1"); ("name", PStr "Blue"); ("popularity", PInt 57);
           ("explicit", PBool false); ("duration_ms", PInt 201000);
           ("album_name", PStr "First Light");
           ("album_release_date", PStr "2019-05-03");
           ("artist_names", PStr "Ann"); ("artist_ids", PStr "a1")]
          ++ feature_fields Shelf.features;
          [("id", PStr "t2"); ("name", PStr "Blue"); ("popularity", PInt 57);
           ("explicit", PBool false); ("duration_ms", PInt 201000);
           ("album_name", PStr "First Light");
           ("album_release_date", PStr "2019-05-03");
           ("artist_names", PStr "Ann"); ("artist_ids", PStr "a1")];
          [("id", PStr "t3"); ("name", PStr "Blue"); ("popularity", PInt 57);
           ("explicit", PBool false); ("duration_ms", PInt 201000);
           ("album_name", PStr "First Light");
           ("album_release_date", PStr "2019-05-03");
           ("artist_names", PStr "Ann"); ("artist_ids", PStr "a1")]]) /\
  feature_fields Shelf.features
  = [("danceability", PFloat (7 # 10)); ("energy", PNone); ("key", PNone);
     ("loudness", PNone); ("mode", PNone); ("speechiness", PNone);
     ("acousticness", PNone); ("instrumentalness", PNone); ("liveness", PNone);
     ("valence", PNone); ("tempo", PInt 120); ("time_signature", PNone)].
Proof. split; reflexivity. Qed.

Lemma recommendations_pause_jazz :
  exists rows s',
    get_recommendations Shelf.steady PNone PNone (PList [PStr "jazz"]) 50 Shelf.fresh
      = (Done rows, s') /\
    sleeps (history (base s'))
      = sleeps (history (base Shelf.fresh)) ++ repeat 1%Z ((length Shelf.jazz - 1) / 50) /\
    disk (base s') = disk (base Shelf.fresh).
Proof.
  apply (recommendations_pause_every_fifty Shelf.steady PNone PNone
           (PList [PStr "jazz"]) 50 Shelf.fresh
           (PDict [("tracks", PList Shelf.jazz)]) (PList Shelf.jazz) Shelf.jazz).
  - exact steady_is_tame.
  - reflexivity.
  - reflexivity.
  - reflexivity.
  - exact jazz_is_complete.
Defined.


(** Fifty-one tracks: one pause, after the track of index 50. *)
Example recommendations_fifty_one :
  sleeps (history (base (snd (recommend_from Shelf.steady 0
                                (repeat (Shelf.track "t1") 51) [] Shelf.fresh))))
  = [1%Z].
Proof. vm_compute. reflexivity. Qed.
